(** * Raysect core: spectral functions, glass material and 3D kd-tree

    A shallow embedding of the spectral function classes
    ([SampledSF], [InterpolatedSF], [ConstantSF]), of the dielectric
    material [Glass] and of the kd-tree [KDTreeCore] / [KDTree].

    Numbers.  A C [double] is modelled by an exact rational ([Q]); rounding,
    infinities and NaN are outside the model.  [==] on [Q] stands for the
    [==] of the source.  A C [int] is modelled by [Z]; the sizes met here
    never come near the 32-bit limits.

    Memory.  [PyMem_Malloc] and [PyMem_Realloc] are taken to succeed; a field
    of a C struct that has not been written yet is [None]. *)

From Stdlib Require Import String.
From Stdlib Require Import ZArith QArith Bool List Lia Permutation Sorted.
From stdpp Require Import base option list relations.

Local Open Scope Z_scope.

(* ===================================================================== *)
(** * Comparisons on doubles *)
(* ===================================================================== *)

(** [a < b] on doubles, as a boolean. *)
Definition Qlt_bool (a b : Q) : bool := negb (Qle_bool b a).

Lemma Qlt_bool_iff (a b : Q) : Qlt_bool a b = true <-> (a < b)%Q.
Proof.
  unfold Qlt_bool. rewrite negb_true_iff, <- not_true_iff_false, Qle_bool_iff.
  split; [apply Qnot_le_lt | apply Qlt_not_le].
Qed.

Lemma Qlt_bool_false_iff (a b : Q) : Qlt_bool a b = false <-> (b <= a)%Q.
Proof.
  unfold Qlt_bool. rewrite negb_false_iff. apply Qle_bool_iff.
Qed.

Lemma Qeq_bool_sym (a b : Q) : Qeq_bool a b = Qeq_bool b a.
Proof.
  destruct (Qeq_bool b a) eqn:E.
  - apply Qeq_bool_iff. symmetry. now apply Qeq_bool_iff.
  - apply not_true_iff_false. intros H. apply Qeq_bool_iff in H.
    apply Qeq_bool_neq in E. apply E. now symmetry.
Qed.

(* ===================================================================== *)
(** * kd-tree: candidate edges *)
(* ===================================================================== *)

(** The C struct [edge] of the kd-tree builder. *)
Record edge : Type := mk_edge { is_upper_edge : bool; value : Q }.

(** [_edge_compare(p1, p2)]: the comparison function handed to [qsort]. *)
Definition _edge_compare (e1 e2 : edge) : Z :=
  if Qeq_bool (value e1) (value e2) then
    if is_upper_edge e2 then -1 else 1
  else if Qlt_bool (value e1) (value e2) then -1
  else 1.

(** [qsort(base, n, size, compar)] of the C library.  C fixes no algorithm;
    the model is a straight insertion sort that asks the comparison function
    where the next element goes: it is placed in front of the first element
    [y] with [compar x y < 0]. *)
Fixpoint qsort_insert {A : Type} (compar : A -> A -> Z) (x : A) (l : list A) : list A :=
  match l with
  | [] => [x]
  | y :: l' => if compar x y <? 0 then x :: y :: l' else y :: qsort_insert compar x l'
  end.

Fixpoint qsort {A : Type} (compar : A -> A -> Z) (l : list A) : list A :=
  match l with
  | [] => []
  | x :: l' => qsort_insert compar x (qsort compar l')
  end.

(* ===================================================================== *)
(** * Geometry used by the kd-tree *)
(* ===================================================================== *)

(** Node types and the root, the [DEF] constants of the kd-tree module. *)
Definition INITIAL_NODE_COUNT : Z := 128.
Definition ROOT_NODE : Z := 0.
Definition LEAF : Z := -1.
Definition X_AXIS : Z := 0.
Definition Y_AXIS : Z := 1.
Definition Z_AXIS : Z := 2.

Record Point : Type := mk_point { px : Q; py : Q; pz : Q }.
Record Vector : Type := mk_vector { vx : Q; vy : Q; vz : Q }.

(** Modelled from the spec: [Point.get_index(axis)] and
    [Point.set_index(axis, v)], the componentwise access of section 4.4; the
    point class is not among the sources.  An index other than 0, 1, 2 is not
    used by the tree; the model reads 0 and writes nothing there. *)
Definition get_index (p : Point) (axis : Z) : Q :=
  if axis =? 0 then px p else if axis =? 1 then py p
  else if axis =? 2 then pz p else 0%Q.

Definition set_index (p : Point) (axis : Z) (v : Q) : Point :=
  if axis =? 0 then mk_point v (py p) (pz p)
  else if axis =? 1 then mk_point (px p) v (pz p)
  else if axis =? 2 then mk_point (px p) (py p) v
  else p.

(** Modelled from the spec: [Vector.get_index(axis)], as for points. *)
Definition vget_index (v : Vector) (axis : Z) : Q :=
  if axis =? 0 then vx v else if axis =? 1 then vy v
  else if axis =? 2 then vz v else 0%Q.

(** Modelled from the spec: the [origin] and the [direction] of a ray, the
    part of it the tree reads (section 6). *)
Record Ray : Type := mk_ray { origin : Point; direction : Vector }.

(** Modelled from the spec: the bounding box of section 4.4, which is not
    among the sources.  [NullBox] is the box [BoundingBox()] holds before the
    first [union]: it contains nothing and is the unit of [union]. *)
Inductive BoundingBox : Type :=
| NullBox
| Box (lower upper : Point).

(** Modelled from the spec: the corners [lower] and [upper] of a box.  The
    builder reads them of boxes with corners only. *)
Definition lower (b : BoundingBox) : Point :=
  match b with Box l _ => l | NullBox => mk_point 0 0 0 end.
Definition upper (b : BoundingBox) : Point :=
  match b with Box _ u => u | NullBox => mk_point 0 0 0 end.

Definition Qmin (a b : Q) : Q := if Qle_bool a b then a else b.
Definition Qmax (a b : Q) : Q := if Qle_bool a b then b else a.

(** Modelled from the spec: [union(other)] extends a box to include [other]. *)
Definition union (b other : BoundingBox) : BoundingBox :=
  match b, other with
  | NullBox, _ => other
  | _, NullBox => b
  | Box l u, Box l' u' =>
      Box (mk_point (Qmin (px l) (px l')) (Qmin (py l) (py l')) (Qmin (pz l) (pz l')))
          (mk_point (Qmax (px u) (px u')) (Qmax (py u) (py u')) (Qmax (pz u) (pz u')))
  end.

(** Modelled from the spec: [surface_area()] is 2 (dx dy + dy dz + dz dx). *)
Definition surface_area (b : BoundingBox) : Q :=
  match b with
  | NullBox => 0
  | Box l u =>
      let dx := px u - px l in
      let dy := py u - py l in
      let dz := pz u - pz l in
      2 * (dx * dy + dy * dz + dz * dx)
  end%Q.

(** Modelled from the spec: [largest_axis()] is the axis of greatest extent,
    ties broken by the lowest axis index. *)
Definition largest_axis (b : BoundingBox) : Z :=
  match b with
  | NullBox => X_AXIS
  | Box l u =>
      let dx := (px u - px l)%Q in
      let dy := (py u - py l)%Q in
      let dz := (pz u - pz l)%Q in
      if Qle_bool dy dx && Qle_bool dz dx then X_AXIS
      else if Qle_bool dz dy then Y_AXIS
      else Z_AXIS
  end.

(** Modelled from the spec: [contains(point)] is inclusive on all faces. *)
Definition box_contains (b : BoundingBox) (p : Point) : bool :=
  match b with
  | NullBox => false
  | Box l u =>
      Qle_bool (px l) (px p) && Qle_bool (px p) (px u) &&
      Qle_bool (py l) (py p) && Qle_bool (py p) (py u) &&
      Qle_bool (pz l) (pz p) && Qle_bool (pz p) (pz u)
  end.

(** Modelled from the spec: one slab of the slab method, the interval of
    ray parameters for which the ray lies between [lo] and [hi] on one axis.
    [None] is the empty interval; an open end is [None] inside the pair. *)
Definition slab (o d lo hi : Q) : option (option Q * option Q) :=
  if Qeq_bool d 0 then
    if Qle_bool lo o && Qle_bool o hi then Some (None, None) else None
  else
    let t1 := ((lo - o) / d)%Q in
    let t2 := ((hi - o) / d)%Q in
    Some (Some (Qmin t1 t2), Some (Qmax t1 t2)).

Definition meet_front (a b : option Q) : option Q :=
  match a, b with
  | None, t | t, None => t
  | Some s, Some t => Some (Qmax s t)
  end.

Definition meet_back (a b : option Q) : option Q :=
  match a, b with
  | None, t | t, None => t
  | Some s, Some t => Some (Qmin s t)
  end.

(** Modelled from the spec: [full_intersection(ray)] returns
    [(hit, t_min, t_max)] by the slab method, the entry and exit distances
    when the ray meets the box in front of its origin.  A ray whose direction
    is zero on every axis meets no box. *)
Definition full_intersection (b : BoundingBox) (ray : Ray) : bool * Q * Q :=
  match b with
  | NullBox => (false, 0%Q, 0%Q)
  | Box l u =>
      let o := origin ray in
      let d := direction ray in
      match slab (px o) (vx d) (px l) (px u),
            slab (py o) (vy d) (py l) (py u),
            slab (pz o) (vz d) (pz l) (pz u) with
      | Some (fx, bx), Some (fy, by_), Some (fz, bz) =>
          match meet_front fx (meet_front fy fz), meet_back bx (meet_back by_ bz) with
          | Some front, Some back =>
              if Qlt_bool back front then (false, 0%Q, 0%Q)
              else if Qlt_bool back 0 then (false, 0%Q, 0%Q)
              else (true, front, back)
          | _, _ => (false, 0%Q, 0%Q)
          end
      | _, _, _ => (false, 0%Q, 0%Q)
      end
  end.

(** [new_boundingbox(lower, upper)]. *)
Definition new_boundingbox (l u : Point) : BoundingBox := Box l u.

(* ===================================================================== *)
(** * kd-tree: data model *)
(* ===================================================================== *)

(** [Item(id, box)].  [box] is [None] for the items [__setstate__] makes
    ([Item(id, None)]). *)
Record Item : Type := mk_item { id : Z; box : option BoundingBox }.

(** [item.box] where the builder reads it; the builder never sees an item
    without a box. *)
Definition item_box (item : Item) : BoundingBox :=
  match box item with Some b => b | None => NullBox end.

(** The C struct [kdnode].  A field is [None] until it is written:
    [PyMem_Realloc] hands out memory of unspecified content. *)
Record kdnode : Type := mk_kdnode {
  type : option Z;         (* LEAF, or the split axis of a branch *)
  split : option Q;        (* position of the split plane *)
  count : option Z;        (* leaf: number of items; branch: id of the upper node *)
  items : option (list Z)  (* leaf with count > 0: the array of item ids *)
}.

Definition blank_node : kdnode := mk_kdnode None None None None.

(** The attributes of a [KDTreeCore] object.  [_nodes] holds the slots of
    the array that [_new_node] has handed out, [_next_node] of them; the
    array has room for [_allocated_nodes], and the slots not yet handed out
    are neither read nor written. *)
Record KDTreeCore : Type := mk_kdtree {
  _nodes : list kdnode;
  _allocated_nodes : Z;
  _next_node : Z;
  bounds : BoundingBox;
  _max_depth : Z;
  _min_items : Z;
  _hit_cost : Q;
  _empty_bonus : Q
}.

Definition with_nodes (self : KDTreeCore) (nodes : list kdnode) (allocated next : Z) : KDTreeCore :=
  mk_kdtree nodes allocated next (bounds self)
            (_max_depth self) (_min_items self) (_hit_cost self) (_empty_bonus self).

(** Methods that change [self]: the state is threaded, [None] is a fault
    (an index outside the array, a field read before it was written, or the
    recursion budget of the model used up). *)
Definition M (A : Type) : Type := KDTreeCore -> option (A * KDTreeCore).

Definition ret {A : Type} (a : A) : M A := fun self => Some (a, self).

Definition bind {A B : Type} (m : M A) (k : A -> M B) : M B :=
  fun self => match m self with
              | Some (a, self') => k a self'
              | None => None
              end.

Declare Scope kd_scope.
Delimit Scope kd_scope with kd.
Notation "'do' x <- m ; k" := (bind m (fun x => k))
  (at level 10, x name, m at level 100, k at level 200) : kd_scope.
Notation "'run' m ; k" := (bind m (fun _ => k))
  (at level 10, m at level 100, k at level 200) : kd_scope.

(** [self._nodes[id]] read. *)
Definition node_at (self : KDTreeCore) (i : Z) : option kdnode :=
  if i <? 0 then None else _nodes self !! Z.to_nat i.

(** [self._nodes[id].field = v]. *)
Definition update_node (i : Z) (f : kdnode -> kdnode) : M unit :=
  fun self =>
    match node_at self i with
    | Some n => Some (tt, with_nodes self (<[Z.to_nat i := f n]> (_nodes self))
                                     (_allocated_nodes self) (_next_node self))
    | None => None
    end.

Definition set_type (v : Z) (n : kdnode) : kdnode :=
  mk_kdnode (Some v) (split n) (count n) (items n).
Definition set_split (v : Q) (n : kdnode) : kdnode :=
  mk_kdnode (type n) (Some v) (count n) (items n).
Definition set_count (v : Z) (n : kdnode) : kdnode :=
  mk_kdnode (type n) (split n) (Some v) (items n).
Definition set_items (v : list Z) (n : kdnode) : kdnode :=
  mk_kdnode (type n) (split n) (count n) (Some v).

(** [__cinit__()]: no array yet. *)
Definition __cinit__ (self : KDTreeCore) : KDTreeCore := with_nodes self [] 0 0.

(** [_new_node()]: the array doubles (128 slots at first) when it is full;
    the old content is kept, the slot handed out is unwritten. *)
Definition _new_node : M Z :=
  fun self =>
    let allocated :=
      if _next_node self =? _allocated_nodes self
      then Z.max INITIAL_NODE_COUNT (_allocated_nodes self * 2)
      else _allocated_nodes self in
    let i := _next_node self in
    Some (i, with_nodes self (_nodes self ++ [blank_node]) allocated (_next_node self + 1)).

(** [_new_leaf(items)]. *)
Definition _new_leaf (its : list Item) : M Z :=
  (let cnt := Z.of_nat (length its) in
   do i <- _new_node;
   run update_node i (set_type LEAF);
   run update_node i (set_count cnt);
   run (if 0 <? cnt then update_node i (set_items (map id its)) else ret tt);
   ret i)%kd.

(** [_reset()]: every array is freed. *)
Definition _reset (self : KDTreeCore) : KDTreeCore := with_nodes self [] 0 0.

(* ===================================================================== *)
(** * kd-tree: build *)
(* ===================================================================== *)

(** [_get_edges(items, axis)]: the lower and the upper edge of every item,
    in item order, then sorted with [_edge_compare]. *)
Definition item_edges (axis : Z) (item : Item) : list edge :=
  [ mk_edge false (get_index (lower (item_box item)) axis);
    mk_edge true (get_index (upper (item_box item)) axis) ].

Definition _get_edges (its : list Item) (axis : Z) : list edge :=
  qsort _edge_compare (flat_map (item_edges axis) its).

(** [_get_lower_bounds(bounds, split, axis)] and
    [_get_upper_bounds(bounds, split, axis)]. *)
Definition _get_lower_bounds (b : BoundingBox) (s : Q) (axis : Z) : BoundingBox :=
  new_boundingbox (lower b) (set_index (upper b) axis s).

Definition _get_upper_bounds (b : BoundingBox) (s : Q) (axis : Z) : BoundingBox :=
  new_boundingbox (set_index (lower b) axis s) (upper b).

(** The local variables of [_split] that live across iterations. *)
Record sweep : Type := mk_sweep {
  lower_count : Z;
  upper_count : Z;
  best_cost : Q;
  best_split : Q;
  best_axis : Z;
  is_leaf : bool
}.

(** One iteration of the scan over the candidate edges. *)
Definition sweep_edge (self : KDTreeCore) (b : BoundingBox) (recip_total_sa : Q)
           (axis : Z) (st : sweep) (e : edge) : sweep :=
  (* update item counts for upper volume *)
  let upper_count1 := if is_upper_edge e then upper_count st - 1 else upper_count st in
  let s := value e in
  let st1 :=
    if Qlt_bool (get_index (lower b) axis) s && Qlt_bool s (get_index (upper b) axis) then
      let lower_sa := surface_area (_get_lower_bounds b s axis) in
      let upper_sa := surface_area (_get_upper_bounds b s axis) in
      let bonus :=
        if (lower_count st =? 0) || (upper_count1 =? 0)
        then (1 - _empty_bonus self)%Q else 1%Q in
      let cost :=
        (1 + bonus * (lower_sa * inject_Z (lower_count st) + upper_sa * inject_Z upper_count1)
             * recip_total_sa * _hit_cost self)%Q in
      if Qlt_bool cost (best_cost st)
      then mk_sweep (lower_count st) upper_count1 cost s axis false
      else mk_sweep (lower_count st) upper_count1
                    (best_cost st) (best_split st) (best_axis st) (is_leaf st)
    else mk_sweep (lower_count st) upper_count1
                  (best_cost st) (best_split st) (best_axis st) (is_leaf st) in
  (* update item counts for lower volume *)
  if is_upper_edge e then st1
  else mk_sweep (lower_count st1 + 1) (upper_count st1)
                (best_cost st1) (best_split st1) (best_axis st1) (is_leaf st1).

(** The body of the loop over the axes, for one axis. *)
Definition sweep_axis (self : KDTreeCore) (its : list Item) (b : BoundingBox)
           (recip_total_sa : Q) (st : sweep) (axis : Z) : sweep :=
  let st0 := mk_sweep 0 (Z.of_nat (length its))
                      (best_cost st) (best_split st) (best_axis st) (is_leaf st) in
  fold_left (sweep_edge self b recip_total_sa axis) (_get_edges its axis) st0.

(** The loop over the axes, left at the first axis with a split. *)
Fixpoint sweep_axes (self : KDTreeCore) (its : list Item) (b : BoundingBox)
         (recip_total_sa : Q) (st : sweep) (axes : list Z) : sweep :=
  match axes with
  | [] => st
  | axis :: rest =>
      let st' := sweep_axis self its b recip_total_sa st axis in
      if negb (is_leaf st') then st'
      else sweep_axes self its b recip_total_sa st' rest
  end.

(** The split solution [_split] returns:
    [(best_axis, best_split, lower_items, lower_bounds, upper_items, upper_bounds)]. *)
Definition split_solution : Type :=
  (Z * Q * list Item * BoundingBox * list Item * BoundingBox)%type.

(** The items of the lower node and of the upper node. *)
Definition in_lower (axis : Z) (s : Q) (item : Item) : bool :=
  Qlt_bool (get_index (lower (item_box item)) axis) s.
Definition in_upper (axis : Z) (s : Q) (item : Item) : bool :=
  Qlt_bool s (get_index (upper (item_box item)) axis).

(** [_split(items, bounds)]. *)
Definition _split (self : KDTreeCore) (its : list Item) (b : BoundingBox)
  : option split_solution :=
  let st0 := mk_sweep 0 0 (inject_Z (Z.of_nat (length its)) * _hit_cost self)%Q 0%Q (-1) true in
  let recip_total_sa := (1 / surface_area b)%Q in
  let longest_axis := largest_axis b in
  let st := sweep_axes self its b recip_total_sa st0
              [longest_axis; (longest_axis + 1) mod 3; (longest_axis + 2) mod 3] in
  if is_leaf st then None
  else
    let lower_items := List.filter (in_lower (best_axis st) (best_split st)) its in
    let upper_items := List.filter (in_upper (best_axis st) (best_split st)) its in
    Some (best_axis st, best_split st,
          lower_items, _get_lower_bounds b (best_split st) (best_axis st),
          upper_items, _get_upper_bounds b (best_split st) (best_axis st)).

(** [_new_branch(split_solution, depth)], with the recursive [_build] it
    calls as a parameter.  The branch is written after both subtrees are
    built. *)
Definition _new_branch (build : list Item -> BoundingBox -> Z -> M Z)
           (sol : split_solution) (depth : Z) : M Z :=
  (let '(axis, s, lower_items, lower_bounds, upper_items, upper_bounds) := sol in
   do i <- _new_node;
   do _lower_id <- build lower_items lower_bounds (depth + 1);
   do upper_id <- build upper_items upper_bounds (depth + 1);
   run update_node i (set_count upper_id);
   run update_node i (set_type axis);
   run update_node i (set_split s);
   ret i)%kd.

(** [_build(items, bounds, depth)].  [fuel] bounds the depth of the
    recursion of the model. *)
Fixpoint _build (fuel : nat) (its : list Item) (b : BoundingBox) (depth : Z) : M Z :=
  fun self =>
    match fuel with
    | O => None
    | S fuel' =>
        if (depth =? _max_depth self) || (Z.of_nat (length its) <=? _min_items self)
        then _new_leaf its self
        else match _split self its b with
             | None => _new_leaf its self
             | Some sol => _new_branch (_build fuel') sol depth self
             end
    end.

(** [__init__(items, max_depth, min_items, hit_cost, empty_bonus)] on a
    fresh object.  [auto_depth n] stands for [<int> ceil(8 + 1.3 * log(n))];
    [inl] carries the message of the [ValueError]. *)
Definition __init__ (auto_depth : Z -> Z) (fuel : nat) (its : list Item)
           (max_depth min_items : Z) (hit_cost empty_bonus : Q)
  : string + option KDTreeCore :=
  if Qlt_bool empty_bonus 0 || Qlt_bool 1 empty_bonus then
    inl "The empty_bonus cost modifier must lie in the range [0.0, 1.0]."%string
  else
    let max_depth1 := Z.max 0 max_depth in
    let min_items1 := Z.max 1 min_items in
    let hit_cost1 := Qmax 1 hit_cost in
    let max_depth2 :=
      if max_depth1 =? 0 then auto_depth (Z.of_nat (length its)) else max_depth1 in
    let b := fold_left (fun acc item => union acc (item_box item)) its NullBox in
    let self := mk_kdtree [] 0 0 b max_depth2 min_items1 hit_cost1 empty_bonus in
    inr (option_map snd (_build fuel its b 0 self)).

(* ===================================================================== *)
(** * kd-tree: traversal *)
(* ===================================================================== *)

(** The item ids a leaf holds: [items[0] .. items[count - 1]]. *)
Definition leaf_items (n : kdnode) : option (list Z) :=
  match count n with
  | Some c =>
      if c <=? 0 then Some []
      else match items n with
           | Some l => if c <=? Z.of_nat (length l) then Some (take (Z.to_nat c) l) else None
           | None => None
           end
  | None => None
  end.

(** What a Python-level method returning a list hands back: a list, or
    [None] when the body ends without a [return]. *)
Inductive py_list : Type :=
| PyNone
| PyList (l : list Z).

Section Traversal.

(** The virtual methods [_hit_leaf(id, ray, max_range)] and
    [_contains_leaf(id, point)] of the subclass.  [None] is an exception
    leaving the hook (the base class raises [NotImplementedError]). *)
Variable _hit_leaf : KDTreeCore -> Z -> Ray -> Q -> option bool.
Variable _contains_leaf : KDTreeCore -> Z -> Point -> option (list Z).

(** [_hit_branch(id, ray, min_range, max_range)], with [_hit_node] as a
    parameter.  Beside the result the model returns the leaves on which
    [_hit_leaf] was called, in call order. *)
Definition _hit_branch (hit_node : Z -> Ray -> Q -> Q -> option (bool * list Z))
           (n : kdnode) (i : Z) (ray : Ray) (min_range max_range : Q)
  : option (bool * list Z) :=
  match type n, split n, count n with
  | Some axis, Some s, Some upper_id =>
      let lower_id := i + 1 in
      let o := get_index (origin ray) axis in
      let d := vget_index (direction ray) axis in
      if Qeq_bool d 0 then
        if Qlt_bool o s then hit_node lower_id ray min_range max_range
        else hit_node upper_id ray min_range max_range
      else
        let plane_distance := ((s - o) / d)%Q in
        let below_split := Qlt_bool o s || (Qeq_bool o s && Qlt_bool d 0) in
        let near_id := if below_split then lower_id else upper_id in
        let far_id := if below_split then upper_id else lower_id in
        if Qlt_bool max_range plane_distance || Qle_bool plane_distance 0 then
          hit_node near_id ray min_range max_range
        else if Qlt_bool plane_distance min_range then
          hit_node far_id ray min_range max_range
        else
          match hit_node near_id ray min_range plane_distance with
          | Some (true, visited) => Some (true, visited)
          | Some (false, visited) =>
              match hit_node far_id ray plane_distance max_range with
              | Some (h, visited') => Some (h, visited ++ visited')
              | None => None
              end
          | None => None
          end
  | _, _, _ => None
  end.

(** [_hit_node(id, ray, min_range, max_range)]. *)
Fixpoint _hit_node (fuel : nat) (self : KDTreeCore) (i : Z) (ray : Ray)
         (min_range max_range : Q) : option (bool * list Z) :=
  match fuel with
  | O => None
  | S fuel' =>
      match node_at self i with
      | Some n =>
          match type n with
          | Some t =>
              if t =? LEAF then
                match _hit_leaf self i ray max_range with
                | Some h => Some (h, [i])
                | None => None
                end
              else _hit_branch (_hit_node fuel' self) n i ray min_range max_range
          | None => None
          end
      | None => None
      end
  end.

(** [_hit(ray)]; the [None] it returns on a miss of the bounds is [False]
    for the declared [bint]. *)
Definition _hit (fuel : nat) (self : KDTreeCore) (ray : Ray) : option (bool * list Z) :=
  let '(hit, min_range, max_range) := full_intersection (bounds self) ray in
  if negb hit then Some (false, [])
  else _hit_node fuel self ROOT_NODE ray min_range max_range.

(** [hit(ray)]. *)
Definition hit (fuel : nat) (self : KDTreeCore) (ray : Ray) : option (bool * list Z) :=
  _hit fuel self ray.

(** [_contains_branch(id, point)], with [_contains_node] as a parameter. *)
Definition _contains_branch (contains_node : Z -> Point -> option (list Z))
           (n : kdnode) (i : Z) (point : Point) : option (list Z) :=
  match type n, split n, count n with
  | Some axis, Some s, Some upper_id =>
      let lower_id := i + 1 in
      if Qlt_bool (get_index point axis) s then contains_node lower_id point
      else contains_node upper_id point
  | _, _, _ => None
  end.

(** [_contains_node(id, point)]. *)
Fixpoint _contains_node (fuel : nat) (self : KDTreeCore) (i : Z) (point : Point)
  : option (list Z) :=
  match fuel with
  | O => None
  | S fuel' =>
      match node_at self i with
      | Some n =>
          match type n with
          | Some t =>
              if t =? LEAF then _contains_leaf self i point
              else _contains_branch (_contains_node fuel' self) n i point
          | None => None
          end
      | None => None
      end
  end.

(** [_contains(point)].  The search is started and its result dropped:
    the last statement has no [return]. *)
Definition _contains (fuel : nat) (self : KDTreeCore) (point : Point) : option py_list :=
  if negb (box_contains (bounds self) point) then Some (PyList [])
  else match _contains_node fuel self ROOT_NODE point with
       | Some _ => Some PyNone
       | None => None
       end.

(** [contains(point)]. *)
Definition contains (fuel : nat) (self : KDTreeCore) (point : Point) : option py_list :=
  _contains fuel self point.

End Traversal.

(** The class [KDTree]: the hooks hand the item ids of the leaf to
    [_hit_items] and [_contains_items]. *)
Definition KDTree_hit_leaf (_hit_items : list Z -> Ray -> Q -> option bool)
           (self : KDTreeCore) (i : Z) (ray : Ray) (max_range : Q) : option bool :=
  match node_at self i with
  | Some n => match leaf_items n with
              | Some ids => _hit_items ids ray max_range
              | None => None
              end
  | None => None
  end.

Definition KDTree_contains_leaf (_contains_items : list Z -> Point -> option (list Z))
           (self : KDTreeCore) (i : Z) (point : Point) : option (list Z) :=
  match node_at self i with
  | Some n => match leaf_items n with
              | Some ids => _contains_items ids point
              | None => None
              end
  | None => None
  end.

(* ===================================================================== *)
(** * kd-tree: pickling *)
(* ===================================================================== *)

(** A node of the pickled state: [(type, items)] for a leaf,
    [(type, (split, count))] for a branch. *)
Definition pickled_node : Type := (Z * (list Z + Q * Z))%type.

(** The pickled state [(bounds, nodes, settings)]. *)
Definition pickled : Type :=
  (BoundingBox * list pickled_node * (Z * Z * Q * Q))%type.

Definition encode_node (n : kdnode) : option pickled_node :=
  match type n with
  | Some t =>
      if t =? LEAF then
        match leaf_items n with
        | Some ids => Some (t, inl ids)
        | None => None
        end
      else
        match split n, count n with
        | Some s, Some c => Some (t, inr (s, c))
        | _, _ => None
        end
  | None => None
  end.

(** [__getstate__()]. *)
Definition __getstate__ (self : KDTreeCore) : option pickled :=
  match mapM encode_node (take (Z.to_nat (_next_node self)) (_nodes self)) with
  | Some nodes =>
      Some (bounds self, nodes,
            (_max_depth self, _min_items self, _hit_cost self, _empty_bonus self))
  | None => None
  end.

(** The body of the decoding loop of [__setstate__].  A branch entry whose
    data is a list unpacks when the list has two elements. *)
Definition decode_node (node : pickled_node) : M unit :=
  (let '(t, data) := node in
   if t =? LEAF then
     match data with
     | inl ids => run _new_leaf (map (fun i => mk_item i None) ids); ret tt
     | inr _ => fun _ => None
     end
   else
     match data with
     | inr (s, c) =>
         do i <- _new_node;
         run update_node i (set_type t);
         run update_node i (set_split s);
         update_node i (set_count c)
     | inl [s; c] =>
         do i <- _new_node;
         run update_node i (set_type t);
         run update_node i (set_split (inject_Z s));
         update_node i (set_count c)
     | inl _ => fun _ => None
     end)%kd.

Fixpoint decode_nodes (nodes : list pickled_node) : M unit :=
  match nodes with
  | [] => ret tt
  | node :: rest => (run decode_node node; decode_nodes rest)%kd
  end.

(** [__setstate__(state)]. *)
Definition __setstate__ (self : KDTreeCore) (state : pickled) : option KDTreeCore :=
  let '(b, nodes, settings) := state in
  let self1 := mk_kdtree (_nodes self) (_allocated_nodes self) (_next_node self) b
                 (_max_depth self) (_min_items self) (_hit_cost self) (_empty_bonus self) in
  let self2 := _reset self1 in
  match decode_nodes nodes self2 with
  | Some (_, self3) =>
      let '(max_depth, min_items, hit_cost, empty_bonus) := settings in
      Some (mk_kdtree (_nodes self3) (_allocated_nodes self3) (_next_node self3)
                      (bounds self3) max_depth min_items hit_cost empty_bonus)
  | None => None
  end.

(* ===================================================================== *)
(** * Spectral functions *)
(* ===================================================================== *)

(** The exceptions the constructors and samplers can raise. *)
Inductive exn : Type :=
| ValueError (msg : string)
| TypeError (msg : string)
| IndexError (msg : string).

(** A numpy array: its shape and its elements in row-major order. *)
Record ndarray : Type := mk_ndarray { shape : list Z; data : list Q }.

Definition ndim (a : ndarray) : Z := Z.of_nat (length (shape a)).

(** [a.shape[0]]; a 0-dimensional array has an empty shape tuple. *)
Definition shape0 (a : ndarray) : exn + Z :=
  match shape a with
  | n :: _ => inr n
  | [] => inl (IndexError "tuple index out of range")
  end.

(** A one-dimensional array holding [l]. *)
Definition array1 (l : list Q) : ndarray := mk_ndarray [Z.of_nat (length l)] l.

(** Objects of class [SampledSF] live in a store and are handled through
    references: [sample_multiple] can return an object that already
    exists. *)
Abbreviation ref := nat.

Module SampledSF.

Record t : Type := mk {
  min_wavelength : Q;
  max_wavelength : Q;
  num_samples : Z;
  delta_wavelength : Q;
  fast_sample : bool;
  samples : option (list Q);      (* None: the attribute is None *)
  _wavelengths : option (list Q)  (* None until populated *)
}.

Abbreviation store := (list t).

(** Allocation of a new object. *)
Definition alloc (h : store) (o : t) : ref * store := (length h, h ++ [o]).

(** [_construct(min_wavelength, max_wavelength, num_samples, fast_sample)]:
    the bins are created and filled with zero. *)
Definition _construct (min_wavelength max_wavelength : Q) (num_samples : Z)
           (fast_sample : bool) : t :=
  mk min_wavelength max_wavelength num_samples
     ((max_wavelength - min_wavelength) / inject_Z num_samples)%Q
     fast_sample
     (Some (replicate (Z.to_nat num_samples) 0%Q))
     None.

(** [SampledSF(min_wavelength, max_wavelength, num_samples, fast_sample)].
    The first check raises a string, which Python answers with a
    [TypeError]. *)
Definition __init__ (min_wavelength max_wavelength : Q) (num_samples : Z)
           (fast_sample : bool) : exn + t :=
  if num_samples <? 1 then
    inl (TypeError "raise: exception class must be a subclass of BaseException")
  else if Qle_bool min_wavelength 0 || Qle_bool max_wavelength 0 then
    inl (ValueError "Wavelength cannot be less than or equal to zero.")
  else if Qle_bool max_wavelength min_wavelength then
    inl (ValueError "Minimum wavelength cannot be greater or equal to the maximum wavelength.")
  else inr (_construct min_wavelength max_wavelength num_samples fast_sample).

(** [new_sampledsf(min_wavelength, max_wavelength, num_samples)]: no
    checks, and [fast_sample] is [False]. *)
Definition new_sampledsf (min_wavelength max_wavelength : Q) (num_samples : Z) : t :=
  _construct min_wavelength max_wavelength num_samples false.

(** [is_shaped(min_wavelength, max_wavelength, num_samples)]. *)
Definition is_shaped (self : t) (min_wl max_wl : Q) (n : Z) : bool :=
  Qeq_bool (min_wavelength self) min_wl &&
  Qeq_bool (max_wavelength self) max_wl &&
  (num_samples self =? n).

(** The centre of bin [index]. *)
Definition centre (min_wl delta : Q) (index : nat) : Q :=
  (min_wl + ((1 # 2) + inject_Z (Z.of_nat index)) * delta)%Q.

(** [_populate_wavelengths()]. *)
Definition _populate_wavelengths (self : t) : t :=
  match _wavelengths self with
  | Some _ => self
  | None =>
      mk (min_wavelength self) (max_wavelength self) (num_samples self)
         (delta_wavelength self) (fast_sample self) (samples self)
         (Some (map (centre (min_wavelength self) (delta_wavelength self))
                    (seq 0 (Z.to_nat (num_samples self)))))
  end.

Definition with_samples (self : t) (l : list Q) : t :=
  mk (min_wavelength self) (max_wavelength self) (num_samples self)
     (delta_wavelength self) (fast_sample self) (Some l) (_wavelengths self).

(** The in-place arithmetic of the class.  [None]: the object has no
    sample array, or the argument array is too short. *)
Definition map_samples (f : Q -> Q) (self : t) : option t :=
  match samples self with
  | Some l => Some (with_samples self (map f l))
  | None => None
  end.

Definition add_scalar (v : Q) : t -> option t := map_samples (fun s => s + v)%Q.
Definition sub_scalar (v : Q) : t -> option t := map_samples (fun s => s - v)%Q.
Definition mul_scalar (v : Q) : t -> option t := map_samples (fun s => s * v)%Q.
Definition div_scalar (v : Q) : t -> option t :=
  let reciprocal := (1 / v)%Q in map_samples (fun s => s * reciprocal)%Q.

Definition zip_samples (f : Q -> Q -> Q) (a : list Q) (self : t) : option t :=
  match samples self with
  | Some l =>
      if (length l <=? length a)%nat
      then Some (with_samples self (zip_with f l a))
      else None
  | None => None
  end.

Definition add_array : list Q -> t -> option t := zip_samples Qplus.
Definition sub_array : list Q -> t -> option t := zip_samples Qminus.
Definition mul_array : list Q -> t -> option t := zip_samples Qmult.
Definition div_array : list Q -> t -> option t := zip_samples Qdiv.

(** An in-place operation applied to the object behind a reference. *)
Definition update (f : t -> option t) (r : ref) (h : store) : option store :=
  match h !! r with
  | Some o => match f o with
              | Some o' => Some (<[r := o']> h)
              | None => None
              end
  | None => None
  end.

Section Sampling.

(** [interpolate(x, f, p)] and [integrate(x, f, x0, x1)] of
    [raysect.core.math.utility], which is not among the sources. *)
Variable interpolate : list Q -> list Q -> Q -> Q.
Variable integrate : list Q -> list Q -> Q -> Q -> Q.

(** The bins of the fast path: the data interpolated at the bin centres. *)
Definition fast_bins (w s : list Q) (min_wl delta : Q) (n : Z) : list Q :=
  map (fun index => interpolate w s (centre min_wl delta index))
      (seq 0 (Z.to_nat n)).

(** The bins of the averaging path: bin [index] runs from the upper end of
    the bin before it to [min_wavelength + (index + 1) * delta]. *)
Fixpoint slow_bins_from (w s : list Q) (min_wl delta reciprocal lower_wl : Q)
         (indices : list nat) : list Q :=
  match indices with
  | [] => []
  | index :: rest =>
      let upper_wl := (min_wl + inject_Z (Z.of_nat index + 1) * delta)%Q in
      (reciprocal * integrate w s lower_wl upper_wl)%Q
        :: slow_bins_from w s min_wl delta reciprocal upper_wl rest
  end.

Definition slow_bins (w s : list Q) (min_wl delta : Q) (n : Z) : list Q :=
  slow_bins_from w s min_wl delta (1 / delta)%Q min_wl (seq 0 (Z.to_nat n)).

Definition resample (fast : bool) (w s : list Q) (min_wl : Q) (n : Z)
           (target : t) : t :=
  with_samples target
    (if fast then fast_bins w s min_wl (delta_wavelength target) n
     else slow_bins w s min_wl (delta_wavelength target) n).

(** [sample_multiple(min_wavelength, max_wavelength, num_samples)]
    on the object behind [self]. *)
Definition sample_multiple (self : ref) (h : store)
           (min_wl max_wl : Q) (n : Z) : option (exn + ref * store) :=
  match h !! self with
  | None => None
  | Some o =>
      match samples o with
      | None => Some (inl (ValueError "Cannot generate samples as the sample array is None."))
      | Some smp =>
          if negb (Z.of_nat (length smp) =? num_samples o) then
            Some (inl (ValueError "Sample array length is inconsistent with num_samples."))
          else if is_shaped o min_wl max_wl n then
            Some (inr (self, h))
          else
            let '(r, h1) := alloc h (new_sampledsf min_wl max_wl n) in
            let o' := _populate_wavelengths o in
            let h2 := <[self := o']> h1 in
            let w := default [] (_wavelengths o') in
            match h2 !! r with
            | Some s =>
                Some (inr (r, <[r := resample (fast_sample o') w smp min_wl n s]> h2))
            | None => None
            end
      end
  end.

End Sampling.

End SampledSF.

Module InterpolatedSF.

Record t : Type := mk {
  wavelengths : option ndarray;  (* None: the attribute is None *)
  samples : option ndarray;
  fast_sample : bool
}.

(** [InterpolatedSF(wavelengths, samples, fast_sample)]; the arguments are
    given as the arrays [array(...)] makes of them. *)
Definition __init__ (wavelengths samples : ndarray) (fast_sample : bool) : exn + t :=
  if negb (ndim wavelengths =? 1) then
    inl (ValueError "Wavelength array must be 1D.")
  else
    match shape0 samples, shape0 wavelengths with
    | inl e, _ | inr _, inl e => inl e
    | inr ns, inr nw =>
        if negb (ns =? nw) then
          inl (ValueError "Wavelength and sample arrays must be the same length.")
        else inr (mk (Some wavelengths) (Some samples) fast_sample)
    end.

Section Sampling.

Variable interpolate : list Q -> list Q -> Q -> Q.
Variable integrate : list Q -> list Q -> Q -> Q -> Q.

(** [sample_multiple(min_wavelength, max_wavelength, num_samples)]; the
    two loops are those of [SampledSF.sample_multiple]. *)
Definition sample_multiple (self : t) (h : SampledSF.store)
           (min_wl max_wl : Q) (n : Z) : exn + ref * SampledSF.store :=
  match samples self with
  | None => inl (ValueError "Cannot generate samples as the sample array is None.")
  | Some smp =>
      match wavelengths self with
      | None => inl (ValueError "Cannot generate wavelengths as the sample array is None.")
      | Some wl =>
          match shape0 smp, shape0 wl with
          | inl e, _ | inr _, inl e => inl e
          | inr ns, inr nw =>
              if negb (ns =? nw) then
                inl (ValueError "Wavelength and sample arrays must be the same length.")
              else
                let s := SampledSF.new_sampledsf min_wl max_wl n in
                let s' := SampledSF.resample interpolate integrate (fast_sample self)
                            (data wl) (data smp) min_wl n s in
                inr (SampledSF.alloc h s')
          end
      end
  end.

End Sampling.

End InterpolatedSF.

Module ConstantSF.

Record t : Type := mk {
  value : Q;
  cached_samples : option ref  (* None: nothing cached *)
}.

(** [ConstantSF(value)]. *)
Definition __init__ (value : Q) : t := mk value None.

(** [sample_single(min_wavelength, max_wavelength)]. *)
Definition sample_single (self : t) (min_wl max_wl : Q) : Q := value self.

(** Is the cache set and of the requested shape?  The outer [None] is a
    reference to no object. *)
Definition cache_hit (self : t) (h : SampledSF.store) (min_wl max_wl : Q) (n : Z)
  : option (option ref) :=
  match cached_samples self with
  | None => Some None
  | Some r =>
      match h !! r with
      | Some o => Some (if SampledSF.is_shaped o min_wl max_wl n then Some r else None)
      | None => None
      end
  end.

(** [sample_multiple(min_wavelength, max_wavelength, num_samples)]: the
    cached object itself is returned when its shape is the one asked for;
    otherwise a new object is filled with [value] and cached. *)
Definition sample_multiple (self : t) (h : SampledSF.store)
           (min_wl max_wl : Q) (n : Z) : option (ref * t * SampledSF.store) :=
  match cache_hit self h min_wl max_wl n with
  | None => None
  | Some (Some r) => Some (r, self, h)
  | Some None =>
      let s := SampledSF.new_sampledsf min_wl max_wl n in
      let s' := SampledSF.with_samples s
                  (map (fun _ => value self) (default [] (SampledSF.samples s))) in
      let '(r, h') := SampledSF.alloc h s' in
      Some (r, mk (value self) (Some r), h')
  end.

End ConstantSF.

(* ===================================================================== *)
(** * The glass material *)
(* ===================================================================== *)

Module Glass.

Record Normal : Type := mk_normal { nx : Q; ny : Q; nz : Q }.

(** [_fresnel(ci, ct, n1, n2, &reflectivity, &transmission)]: the pair of
    the two values written through the pointers. *)
Definition _fresnel (ci ct n1 n2 : Q) : Q * Q :=
  let a := ((n1 * ci - n2 * ct) / (n1 * ci + n2 * ct))%Q in
  let b := ((n1 * ct - n2 * ci) / (n1 * ct + n2 * ci))%Q in
  let reflectivity := ((1 # 2) * (a * a + b * b))%Q in
  (reflectivity, (1 - reflectivity)%Q).

Section Material.

(** The collaborators of the material: the scene, the optical ray and
    the linear algebra, none of which is among the sources. *)
Variables World OpticalRay Primitive AffineMatrix Spectrum : Type.
Variable sqrt : Q -> Q.
Variable vector_transform : Vector -> AffineMatrix -> Vector.
Variable point_transform : Point -> AffineMatrix -> Point.
Variable vector_normalise : Vector -> Vector.
Variable normal_normalise : Normal -> Normal.
Variable normal_dot : Normal -> Vector -> Q.
Variable ray_direction : OpticalRay -> Vector.
Variable refraction_wavelength : OpticalRay -> Q.
Variable spawn_daughter : OpticalRay -> Point -> Vector -> OpticalRay.
Variable trace : OpticalRay -> World -> Spectrum.
Variable new_spectrum : OpticalRay -> Spectrum.
Variable mul_scalar : Spectrum -> Q -> Spectrum.
Variable add_array : Spectrum -> Spectrum -> Spectrum.

(** The attributes of a [Glass] object. *)
Record t : Type := mk {
  index : Q -> Q;
  transmission : Q -> Q -> Q;
  cutoff : Q
}.

(** What a call of [evaluate_surface] does to its collaborators, in
    order: the daughter rays it spawns and the rays it traces. *)
Inductive event : Type :=
| Spawn (origin : Point) (direction : Vector)
| Trace (ray : OpticalRay).

Definition new_vector (x y z : Q) : Vector := mk_vector x y z.

(** [evaluate_surface(world, ray, primitive, hit_point, exiting,
    inside_point, outside_point, normal, to_local, to_world)]. *)
Definition evaluate_surface (self : t) (world : World) (ray : OpticalRay)
           (primitive : Primitive) (hit_point : Point) (exiting : bool)
           (inside_point outside_point : Point) (normal : Normal)
           (to_local to_world : AffineMatrix) : Spectrum * list event :=
  let incident := vector_transform (ray_direction ray) to_local in
  let incident := vector_normalise incident in
  let normal := normal_normalise normal in
  let c1 := (- normal_dot normal incident)%Q in
  let n1 := if exiting then index self (refraction_wavelength ray) else 1%Q in
  let n2 := if exiting then 1%Q else index self (refraction_wavelength ray) in
  let gamma := (n1 / n2)%Q in
  let c2s := (1 - (gamma * gamma) * (1 - c1 * c1))%Q in
  if Qle_bool c2s 0 then
    (* total internal reflection *)
    let temp := (2 * c1)%Q in
    let reflected := new_vector (vx incident + temp * nx normal)
                                (vy incident + temp * ny normal)
                                (vz incident + temp * nz normal) in
    let reflected := vector_transform reflected to_world in
    let start := if exiting then point_transform inside_point to_world
                 else point_transform outside_point to_world in
    let reflected_ray := spawn_daughter ray start reflected in
    (trace reflected_ray world, [Spawn start reflected; Trace reflected_ray])
  else
    let temp := (2 * c1)%Q in
    let reflected := new_vector (vx incident + temp * nx normal)
                                (vy incident + temp * ny normal)
                                (vz incident + temp * nz normal) in
    let temp := if exiting then (gamma * c1 + sqrt c2s)%Q
                else (gamma * c1 - sqrt c2s)%Q in
    let transmitted := new_vector (gamma * vx incident + temp * nx normal)
                                  (gamma * vy incident + temp * ny normal)
                                  (gamma * vz incident + temp * nz normal) in
    let '(reflectivity, transmission) :=
      _fresnel c1 (- normal_dot normal transmitted)%Q n1 n2 in
    let reflected := vector_transform reflected to_world in
    let transmitted := vector_transform transmitted to_world in
    let inside_point := point_transform inside_point to_world in
    let outside_point := point_transform outside_point to_world in
    let reflected_start := if exiting then inside_point else outside_point in
    let transmitted_start := if exiting then outside_point else inside_point in
    let reflected_ray := spawn_daughter ray reflected_start reflected in
    let transmitted_ray := spawn_daughter ray transmitted_start transmitted in
    let spawned := [Spawn reflected_start reflected; Spawn transmitted_start transmitted] in
    let '(spectrum, traced) :=
      if Qlt_bool (cutoff self) reflectivity
      then (mul_scalar (trace reflected_ray world) reflectivity, [Trace reflected_ray])
      else (new_spectrum ray, []) in
    if Qlt_bool (cutoff self) transmission then
      let ray_sample := mul_scalar (trace transmitted_ray world) transmission in
      (add_array spectrum ray_sample, spawned ++ traced ++ [Trace transmitted_ray])
    else (spectrum, spawned ++ traced).

(** [evaluate_volume(spectrum, ...)]: the spectrum is handed back. *)
Definition evaluate_volume (self : t) (spectrum : Spectrum) : Spectrum := spectrum.

End Material.

Arguments Spawn {OpticalRay} origin direction.
Arguments Trace {OpticalRay} ray.
Arguments evaluate_surface {World OpticalRay Primitive AffineMatrix Spectrum}.
Arguments evaluate_volume {Spectrum}.

End Glass.

(* ===================================================================== *)
(** * Properties of the edge order *)
(* ===================================================================== *)

(** The order [_edge_compare] stands for: by value, and a lower edge before
    an upper edge of the same value. *)
Definition edge_le (a b : edge) : Prop :=
  (value a < value b)%Q \/
  ((value a == value b)%Q /\ (is_upper_edge a = true -> is_upper_edge b = true)).

(** On ties of the value, every upper edge stands before every lower edge. *)
Definition upper_first_on_ties (l : list edge) : Prop :=
  forall (i j : nat) (a b : edge),
    l !! i = Some a -> l !! j = Some b -> (value a == value b)%Q ->
    is_upper_edge a = true -> is_upper_edge b = false -> (i < j)%nat.

(** On ties of the value, every lower edge stands before every upper edge. *)
Definition lower_first_on_ties (l : list edge) : Prop :=
  forall (i j : nat) (a b : edge),
    l !! i = Some a -> l !! j = Some b -> (value a == value b)%Q ->
    is_upper_edge a = false -> is_upper_edge b = true -> (i < j)%nat.

(** Ascending values. *)
Definition sorted_by_value (l : list edge) : Prop :=
  forall (i j : nat) (a b : edge),
    l !! i = Some a -> l !! j = Some b -> (i < j)%nat -> (value a <= value b)%Q.

Lemma edge_compare_cases (a b : edge) :
  (_edge_compare a b = -1 /\ edge_le a b /\
     ((value a < value b)%Q \/ ((value a == value b)%Q /\ is_upper_edge b = true))) \/
  (_edge_compare a b = 1 /\ edge_le b a /\
     ((value b < value a)%Q \/ ((value a == value b)%Q /\ is_upper_edge b = false))).
Proof.
  unfold _edge_compare, edge_le.
  destruct (Qeq_bool (value a) (value b)) eqn:E.
  - apply Qeq_bool_iff in E.
    destruct (is_upper_edge b) eqn:U; [left | right]; repeat split; auto.
    right. split; [now symmetry | congruence].
  - apply Qeq_bool_neq in E.
    destruct (Qlt_bool (value a) (value b)) eqn:L.
    + apply Qlt_bool_iff in L. left. auto.
    + apply Qlt_bool_false_iff in L. right.
      assert (value b < value a)%Q.
      { apply Qle_lt_or_eq in L. destruct L as [L | L]; [exact L | ].
        exfalso. apply E. now symmetry. }
      auto.
Qed.

Lemma edge_le_trans (a b c : edge) : edge_le a b -> edge_le b c -> edge_le a c.
Proof.
  unfold edge_le. intros [H1 | [H1 U1]] [H2 | [H2 U2]].
  - left. now apply Qlt_trans with (value b).
  - left. now rewrite <- H2.
  - left. now rewrite H1.
  - right. split; [now rewrite H1 | auto].
Qed.

Lemma qsort_insert_perm {A : Type} (compar : A -> A -> Z) (x : A) (l : list A) :
  Permutation (x :: l) (qsort_insert compar x l).
Proof.
  induction l as [| y l IH]; simpl.
  - reflexivity.
  - destruct (compar x y <? 0).
    + reflexivity.
    + rewrite perm_swap. now apply perm_skip.
Qed.

Lemma qsort_perm {A : Type} (compar : A -> A -> Z) (l : list A) :
  Permutation l (qsort compar l).
Proof.
  induction l as [| x l IH]; simpl.
  - reflexivity.
  - rewrite <- qsort_insert_perm. now apply perm_skip.
Qed.

Lemma qsort_insert_sorted (x : edge) (l : list edge) :
  StronglySorted edge_le l -> StronglySorted edge_le (qsort_insert _edge_compare x l).
Proof.
  induction 1 as [| y l Hs IH Hy]; simpl.
  - repeat constructor.
  - destruct (edge_compare_cases x y) as [(Hc & Hle & _) | (Hc & Hle & _)]; rewrite Hc; simpl.
    + constructor.
      * now constructor.
      * constructor; [exact Hle | ].
        eapply Forall_impl; [exact Hy | ]. intros z Hz.
        now apply edge_le_trans with y.
    + constructor; [exact IH | ].
      rewrite <- (qsort_insert_perm _edge_compare x l).
      now constructor.
Qed.

Lemma qsort_sorted (l : list edge) : StronglySorted edge_le (qsort _edge_compare l).
Proof.
  induction l as [| x l IH]; simpl.
  - constructor.
  - now apply qsort_insert_sorted.
Qed.

Lemma StronglySorted_lookup {A : Type} (R : A -> A -> Prop) (l : list A) :
  StronglySorted R l ->
  forall (i j : nat) (a b : A), l !! i = Some a -> l !! j = Some b -> (i < j)%nat -> R a b.
Proof.
  induction 1 as [| x l Hs IH Hx]; intros i j a b Hi Hj Hlt.
  - discriminate.
  - destruct j as [| j]; [lia | ].
    destruct i as [| i]; simpl in *.
    + injection Hi as <-. rewrite Forall_forall in Hx.
      apply Hx. eapply list_elem_of_lookup_2. exact Hj.
    + apply (IH i j); auto. lia.
Qed.

(** C9.  [_edge_compare] never answers 0, and two coincident edges of the
    same kind get the same answer in both argument orders: -1 when both are
    upper edges, +1 when both are lower edges. *)
Theorem edge_compare_same_kind_ties :
  (forall a b : edge, _edge_compare a b <> 0) /\
  (forall a b : edge,
      (value a == value b)%Q -> is_upper_edge a = true -> is_upper_edge b = true ->
      _edge_compare a b = -1 /\ _edge_compare b a = -1) /\
  (forall a b : edge,
      (value a == value b)%Q -> is_upper_edge a = false -> is_upper_edge b = false ->
      _edge_compare a b = 1 /\ _edge_compare b a = 1).
Proof.
  split; [ | split].
  - intros a b. unfold _edge_compare.
    destruct (Qeq_bool (value a) (value b)), (is_upper_edge b),
      (Qlt_bool (value a) (value b)); discriminate.
  - intros a b Hv Ha Hb. unfold _edge_compare.
    rewrite (Qeq_bool_sym (value b) (value a)).
    apply Qeq_bool_iff in Hv. rewrite Hv, Ha, Hb. auto.
  - intros a b Hv Ha Hb. unfold _edge_compare.
    rewrite (Qeq_bool_sym (value b) (value a)).
    apply Qeq_bool_iff in Hv. rewrite Hv, Ha, Hb. auto.
Qed.

Lemma edge_compare_same_kind_ties_witness :
  (_edge_compare (mk_edge true 1) (mk_edge true (2 # 2)) = -1 /\
   _edge_compare (mk_edge true (2 # 2)) (mk_edge true 1) = -1) /\
  (_edge_compare (mk_edge false 1) (mk_edge false (2 # 2)) = 1 /\
   _edge_compare (mk_edge false (2 # 2)) (mk_edge false 1) = 1).
Proof.
  split.
  - apply (proj1 (proj2 edge_compare_same_kind_ties)); reflexivity.
  - apply (proj2 (proj2 edge_compare_same_kind_ties)); reflexivity.
Defined.

(** An arrangement [qsort] may leave behind, whatever its algorithm: no
    two elements stand in the order that [_edge_compare] rejects both ways
    round. *)
Definition in_comparator_order (l : list edge) : Prop :=
  forall (i j : nat) (a b : edge),
    l !! i = Some a -> l !! j = Some b -> (i < j)%nat ->
    ~ (_edge_compare b a < 0 /\ _edge_compare a b > 0).

Lemma edge_compare_tie (a b : edge) :
  (value a == value b)%Q ->
  _edge_compare a b = if is_upper_edge b then -1 else 1.
Proof.
  intros H. unfold _edge_compare. apply Qeq_bool_iff in H. now rewrite H.
Qed.

Lemma edge_compare_lt (a b : edge) :
  (value a < value b)%Q -> _edge_compare a b = -1 /\ _edge_compare b a = 1.
Proof.
  intros H. split.
  - destruct (edge_compare_cases a b) as [(Hc & _) | (_ & _ & [H' | [H' _]])]; [exact Hc | | ].
    + exfalso. apply (Qlt_irrefl (value a)). now apply Qlt_trans with (value b).
    + exfalso. rewrite H' in H. now apply Qlt_irrefl in H.
  - destruct (edge_compare_cases b a) as [(_ & _ & [H' | [H' _]]) | (Hc & _)]; [ | | exact Hc].
    + exfalso. apply (Qlt_irrefl (value a)). now apply Qlt_trans with (value b).
    + exfalso. rewrite H' in H. now apply Qlt_irrefl in H.
Qed.

Lemma edge_le_not_rejected (a b : edge) :
  edge_le a b -> ~ (_edge_compare b a < 0 /\ _edge_compare a b > 0).
Proof.
  intros [H | [H U]] [H1 H2].
  - apply edge_compare_lt in H. lia.
  - rewrite (edge_compare_tie a b H) in H2.
    assert (value b == value a)%Q as H' by now symmetry.
    rewrite (edge_compare_tie b a H') in H1.
    destruct (is_upper_edge b); [lia | ].
    destruct (is_upper_edge a); [ | lia].
    specialize (U eq_refl). discriminate.
Qed.

(** Whatever the sorting algorithm, an arrangement in comparator order is
    by ascending value, with the lower edges in front on ties. *)
Lemma comparator_order_lower_first (l : list edge) :
  in_comparator_order l -> sorted_by_value l /\ lower_first_on_ties l.
Proof.
  intros S. split.
  - intros i j a b Hi Hj Hlt.
    destruct (Qlt_le_dec (value b) (value a)) as [H | H]; [ | exact H].
    exfalso. apply (S i j a b Hi Hj Hlt).
    apply edge_compare_lt in H. lia.
  - intros i j a b Hi Hj Hv Ha Hb.
    destruct (Nat.lt_trichotomy i j) as [Hlt | [Heq | Hgt]]; [exact Hlt | | ].
    + subst j. rewrite Hi in Hj. injection Hj as <-. congruence.
    + exfalso. apply (S j i b a Hj Hi Hgt).
      assert (value b == value a)%Q as Hv' by now symmetry.
      rewrite (edge_compare_tie a b Hv), (edge_compare_tie b a Hv'), Ha, Hb. lia.
Qed.

(** C2, as amended.  The array [_get_edges] makes holds the lower and the
    upper edge of every item, in ascending order of value, and on ties of
    the value a lower edge stands before an upper edge. *)
Theorem get_edges_sorted_lower_first (its : list Item) (axis : Z) :
  Permutation (flat_map (item_edges axis) its) (_get_edges its axis) /\
  in_comparator_order (_get_edges its axis) /\
  sorted_by_value (_get_edges its axis) /\
  lower_first_on_ties (_get_edges its axis).
Proof.
  unfold _get_edges. split; [apply qsort_perm | ].
  assert (in_comparator_order (qsort _edge_compare (flat_map (item_edges axis) its))) as S.
  { intros i j a b Hi Hj Hlt. apply edge_le_not_rejected.
    exact (StronglySorted_lookup edge_le _ (qsort_sorted _) i j a b Hi Hj Hlt). }
  split; [exact S | now apply comparator_order_lower_first].
Qed.

(** Two items that touch on the x axis: the upper edge of the first and the
    lower edge of the second are both at 1. *)
Definition touching_items : list Item :=
  [ mk_item 0 (Some (Box (mk_point 0 0 0) (mk_point 1 1 1)));
    mk_item 1 (Some (Box (mk_point 1 0 0) (mk_point 2 1 1))) ].

(** C2, as stated, fails: the lower edge of the second item is sorted in
    front of the coincident upper edge of the first, and so it is in every
    arrangement of these edges that is in comparator order. *)
Lemma get_edges_not_upper_first :
  _get_edges touching_items X_AXIS =
    [mk_edge false 0; mk_edge false 1; mk_edge true 1; mk_edge true 2] /\
  ~ upper_first_on_ties (_get_edges touching_items X_AXIS) /\
  (forall l : list edge,
      Permutation (flat_map (item_edges X_AXIS) touching_items) l ->
      in_comparator_order l -> ~ upper_first_on_ties l).
Proof.
  split; [reflexivity | ]. split.
  - intros H.
    specialize (H 2%nat 1%nat (mk_edge true 1) (mk_edge false 1)
                  eq_refl eq_refl (Qeq_refl _) eq_refl eq_refl).
    lia.
  - intros l Hp S U.
    apply comparator_order_lower_first in S. destruct S as [_ L].
    assert (mk_edge true 1 ∈ l) as Hu.
    { rewrite <- Hp. apply list_elem_of_In. simpl. auto. }
    assert (mk_edge false 1 ∈ l) as Hl.
    { rewrite <- Hp. apply list_elem_of_In. simpl. auto. }
    apply list_elem_of_lookup in Hu. destruct Hu as [i Hi].
    apply list_elem_of_lookup in Hl. destruct Hl as [j Hj].
    pose proof (U i j _ _ Hi Hj (Qeq_refl _) eq_refl eq_refl).
    pose proof (L j i _ _ Hj Hi (Qeq_refl _) eq_refl eq_refl).
    lia.
Qed.

(* ===================================================================== *)
(** * A scene of boxes behind the hooks *)
(* ===================================================================== *)

(** A subclass of [KDTree] whose items are the boxes themselves: the hooks
    look the ids up in the list of items the tree was built from. *)
Definition scene_box (its : list Item) (i : Z) : BoundingBox :=
  match List.find (fun item => id item =? i) its with
  | Some item => item_box item
  | None => NullBox
  end.

(** [_contains_items(item_ids, point)]: the ids whose box holds the point. *)
Definition scene_contains_items (its : list Item) (ids : list Z) (point : Point)
  : option (list Z) :=
  Some (List.filter (fun i => box_contains (scene_box its i) point) ids).

(** The distance at which a ray enters a box in front of its origin. *)
Definition item_distance (b : BoundingBox) (ray : Ray) : option Q :=
  match full_intersection b ray with
  | (true, t0, _) => if Qle_bool 0 t0 then Some t0 else None
  | _ => None
  end.

(** [_hit_items(item_ids, ray, max_range)]: is one of the boxes entered
    within [max_range]? *)
Definition scene_hit_items (its : list Item) (ids : list Z) (ray : Ray) (max_range : Q)
  : option bool :=
  Some (existsb (fun i => match item_distance (scene_box its i) ray with
                          | Some t => Qle_bool t max_range
                          | None => false
                          end) ids).

(** [<int> ceil(8 + 1.3 * log(3))] is 10. *)
Definition auto_depth_3 (n : Z) : Z := 10.

Definition leaf_node (ids : list Z) : kdnode :=
  mk_kdnode (Some LEAF) None (Some (Z.of_nat (length ids)))
            (match ids with [] => None | _ => Some ids end).

Definition branch_node (axis : Z) (s : Q) (upper_id : Z) : kdnode :=
  mk_kdnode (Some axis) (Some s) (Some upper_id) None.

(** The three boxes of the specification's scenario, with default
    parameters, and the tree [__init__] builds of them. *)
Definition three_boxes : list Item :=
  [ mk_item 0 (Some (Box (mk_point 0 0 0) (mk_point 1 1 1)));
    mk_item 1 (Some (Box (mk_point 2 0 0) (mk_point 3 1 1)));
    mk_item 2 (Some (Box (mk_point 4 0 0) (mk_point 5 1 1))) ].

Definition three_boxes_tree : KDTreeCore :=
  mk_kdtree [ branch_node X_AXIS 2 2; leaf_node [0];
              branch_node X_AXIS 3 4; leaf_node [1]; leaf_node [2] ]
            128 5 (Box (mk_point 0 0 0) (mk_point 5 1 1)) 10 1 20 (1 # 5).

(** Three items of which the middle one is flat: its box has no extent
    along x. *)
Definition flat_items : list Item :=
  [ mk_item 0 (Some (Box (mk_point 0 0 0) (mk_point (1 # 2) 1 1)));
    mk_item 1 (Some (Box (mk_point 1 0 0) (mk_point 1 1 1)));
    mk_item 2 (Some (Box (mk_point 2 0 0) (mk_point 3 1 1))) ].

Definition flat_items_tree : KDTreeCore :=
  mk_kdtree [ branch_node X_AXIS 1 2; leaf_node [0]; leaf_node [2] ]
            128 3 (Box (mk_point 0 0 0) (mk_point 3 1 1)) 10 1 20 (1 # 5).

(** A ray along x that starts between the first and the second item. *)
Definition flat_ray : Ray :=
  mk_ray (mk_point (3 # 4) (1 # 2) (1 # 2)) (mk_vector 1 0 0).

(* ===================================================================== *)
(** * Properties of the traversal *)
(* ===================================================================== *)

Lemma three_boxes_built :
  __init__ auto_depth_3 11 three_boxes 0 1 20 (1 # 5) = inr (Some three_boxes_tree).
Proof. vm_compute. reflexivity. Qed.

Lemma flat_items_built :
  __init__ auto_depth_3 11 flat_items 0 1 20 (1 # 5) = inr (Some flat_items_tree).
Proof. vm_compute. reflexivity. Qed.

(** [_contains] answers with the empty list or with nothing at all. *)
Lemma contains_never_a_leaf_list
      (hook : KDTreeCore -> Z -> Point -> option (list Z))
      (fuel : nat) (self : KDTreeCore) (point : Point) (l : list Z) :
  contains hook fuel self point = Some (PyList l) -> l = [].
Proof.
  unfold contains, _contains.
  destruct (negb (box_contains (bounds self) point)).
  - now intros [= <-].
  - destruct (_contains_node hook fuel self ROOT_NODE point); discriminate.
Qed.

(** C1, on the code.  In the tree of the three boxes the descent for the
    point (2.5, 0.5, 0.5) reaches the leaf of item 1 and the hook answers
    [[1]], yet [contains] returns [None]: [_contains] drops the result of
    the search. *)
Theorem contains_three_boxes_returns_None :
  let hook := KDTree_contains_leaf (scene_contains_items three_boxes) in
  let point := mk_point (5 # 2) (1 # 2) (1 # 2) in
  __init__ auto_depth_3 11 three_boxes 0 1 20 (1 # 5) = inr (Some three_boxes_tree) /\
  box_contains (bounds three_boxes_tree) point = true /\
  _contains_node hook 5 three_boxes_tree ROOT_NODE point = Some [1] /\
  contains hook 5 three_boxes_tree point = Some PyNone.
Proof. vm_compute. repeat split; reflexivity. Qed.

(** An item whose box lies in the split plane is put neither in the lower
    nor in the upper list of the partition. *)
Lemma item_in_split_plane_dropped (axis : Z) (s : Q) (item : Item) :
  (get_index (lower (item_box item)) axis == s)%Q ->
  (get_index (upper (item_box item)) axis == s)%Q ->
  in_lower axis s item = false /\ in_upper axis s item = false.
Proof.
  intros Hl Hu. unfold in_lower, in_upper. split; apply Qlt_bool_false_iff.
  - rewrite Hl. apply Qle_refl.
  - rewrite Hu. apply Qle_refl.
Qed.

(** C3, on the code.  The tree built of [flat_items] has no leaf for the
    flat item 1: it lies in the split plane x = 1 and goes neither to the
    lower nor to the upper node.  The ray [flat_ray] enters item 1 at
    distance 1/4 and item 2 at distance 5/4; [_hit_leaf] is called on the
    leaves 1 and 2, which hold the items 0 and 2, and the leaf that reports
    the hit holds item 2 alone. *)
Theorem hit_skips_item_in_split_plane :
  let hook := KDTree_hit_leaf (scene_hit_items flat_items) in
  __init__ auto_depth_3 11 flat_items 0 1 20 (1 # 5) = inr (Some flat_items_tree) /\
  _split flat_items_tree flat_items (bounds flat_items_tree)
    = Some (X_AXIS, 1%Q,
            [mk_item 0 (Some (Box (mk_point 0 0 0) (mk_point (1 # 2) 1 1)))],
            Box (mk_point 0 0 0) (mk_point 1 1 1),
            [mk_item 2 (Some (Box (mk_point 2 0 0) (mk_point 3 1 1)))],
            Box (mk_point 1 0 0) (mk_point 3 1 1)) /\
  item_distance (scene_box flat_items 0) flat_ray = None /\
  item_distance (scene_box flat_items 1) flat_ray = Some (1 # 4) /\
  item_distance (scene_box flat_items 2) flat_ray = Some (5 # 4) /\
  hit hook 3 flat_items_tree flat_ray = Some (true, [1; 2]) /\
  (node_at flat_items_tree 1 ≫= leaf_items) = Some [0] /\
  (node_at flat_items_tree 2 ≫= leaf_items) = Some [2].
Proof. vm_compute. repeat split; reflexivity. Qed.

(* ===================================================================== *)
(** * The node array of a built tree *)
(* ===================================================================== *)

(** The size of the array after [n] calls of [_new_node] on an empty tree. *)
Fixpoint alloc_for (n : nat) : Z :=
  match n with
  | O => 0
  | S k => let a := alloc_for k in
           if Z.of_nat k =? a then Z.max INITIAL_NODE_COUNT (a * 2) else a
  end.

(** A node as [_new_leaf] or [_new_branch] leaves it. *)
Inductive written : kdnode -> Prop :=
| written_leaf (ids : list Z) : written (leaf_node ids)
| written_branch (axis : Z) (s : Q) (upper_id : Z) :
    axis <> LEAF -> written (branch_node axis s upper_id).

(** The counters agree with the slots handed out. *)
Definition counted (self : KDTreeCore) : Prop :=
  _next_node self = Z.of_nat (length (_nodes self)) /\
  _allocated_nodes self = alloc_for (length (_nodes self)).

(** The state [_build] and [__setstate__] leave behind: every slot written,
    the counters in step. *)
Definition built (self : KDTreeCore) : Prop :=
  Forall written (_nodes self) /\ counted self.

(** [self] with [new] more slots handed out. *)
Definition extended (self : KDTreeCore) (new : list kdnode) : KDTreeCore :=
  with_nodes self (_nodes self ++ new)
             (alloc_for (length (_nodes self ++ new)))
             (Z.of_nat (length (_nodes self ++ new))).

Lemma extended_counted (self : KDTreeCore) (new : list kdnode) : counted (extended self new).
Proof. split; reflexivity. Qed.

Lemma extended_extended (self : KDTreeCore) (l1 l2 : list kdnode) :
  extended (extended self l1) l2 = extended self (l1 ++ l2).
Proof. unfold extended, with_nodes. simpl. now rewrite <- app_assoc. Qed.

Lemma new_node_spec (self : KDTreeCore) :
  counted self ->
  _new_node self = Some (Z.of_nat (length (_nodes self)), extended self [blank_node]).
Proof.
  intros [Hn Ha]. unfold _new_node, extended, with_nodes.
  rewrite Hn, Ha. repeat f_equal.
  - rewrite length_app, Nat.add_comm. reflexivity.
  - rewrite length_app. simpl. lia.
Qed.

Lemma update_node_spec (self : KDTreeCore) (l r : list kdnode) (n : kdnode)
      (f : kdnode -> kdnode) :
  _nodes self = l ++ n :: r ->
  update_node (Z.of_nat (length l)) f self =
    Some (tt, with_nodes self (l ++ f n :: r) (_allocated_nodes self) (_next_node self)).
Proof.
  intros H. unfold update_node, node_at.
  destruct (Z.of_nat (length l) <? 0) eqn:E; [apply Z.ltb_lt in E; lia | ].
  rewrite Nat2Z.id, H, list_lookup_middle by reflexivity.
  do 3 f_equal.
  replace (length l) with (length l + 0)%nat at 1 by lia.
  now rewrite insert_app_r.
Qed.

Lemma update_extended (self : KDTreeCore) (n : kdnode) (r : list kdnode)
      (f : kdnode -> kdnode) :
  update_node (Z.of_nat (length (_nodes self))) f (extended self (n :: r)) =
    Some (tt, extended self (f n :: r)).
Proof.
  rewrite (update_node_spec _ (_nodes self) r n) by reflexivity.
  unfold extended, with_nodes. simpl. now rewrite !length_app.
Qed.

Lemma new_leaf_spec (its : list Item) (self : KDTreeCore) :
  counted self ->
  _new_leaf its self =
    Some (Z.of_nat (length (_nodes self)), extended self [leaf_node (map id its)]).
Proof.
  intros H. unfold _new_leaf, bind.
  rewrite (new_node_spec _ H), !update_extended.
  destruct its as [| item its]; simpl.
  - reflexivity.
  - destruct (0 <? Z.pos (Pos.of_succ_nat (length its))) eqn:E;
      [ | apply Z.ltb_ge in E; lia].
    rewrite update_extended. unfold ret, leaf_node. simpl.
    now rewrite length_map.
Qed.

(** What [__getstate__] makes of a written node. *)
Definition pickle_node (n : kdnode) : pickled_node :=
  match type n, split n, count n with
  | Some t, Some s, Some c => (t, inr (s, c))
  | _, _, _ => (LEAF, inl (default [] (items n)))
  end.

Lemma leaf_items_leaf_node (ids : list Z) : leaf_items (leaf_node ids) = Some ids.
Proof.
  unfold leaf_items, leaf_node. simpl.
  destruct ids as [| i ids]; [reflexivity | ].
  destruct (Z.of_nat (length (i :: ids)) <=? 0) eqn:E.
  - apply Z.leb_le in E. simpl in E. lia.
  - rewrite Z.leb_refl, Nat2Z.id. now rewrite take_ge.
Qed.

Lemma encode_written (n : kdnode) : written n -> encode_node n = Some (pickle_node n).
Proof.
  intros [ids | axis s u Hax]; unfold encode_node.
  - change (type (leaf_node ids)) with (Some LEAF). simpl ((LEAF =? LEAF)).
    rewrite leaf_items_leaf_node. unfold pickle_node. simpl.
    now destruct ids.
  - simpl. destruct (axis =? LEAF) eqn:E; [ | reflexivity].
    apply Z.eqb_eq in E. contradiction.
Qed.

Lemma encode_all_written (l : list kdnode) :
  Forall written l -> mapM encode_node l = Some (map pickle_node l).
Proof.
  intros H. apply mapM_Some_2. induction H as [| n l Hn Hl IH]; simpl.
  - constructor.
  - constructor; [now apply encode_written | exact IH].
Qed.

Lemma decode_written (n : kdnode) (self : KDTreeCore) :
  written n -> counted self ->
  decode_node (pickle_node n) self = Some (tt, extended self [n]).
Proof.
  intros [ids | axis s u Hax] Hc.
  - unfold pickle_node, decode_node, bind. simpl.
    rewrite new_leaf_spec by exact Hc. unfold ret.
    rewrite map_map. simpl. rewrite map_id.
    now destruct ids.
  - change (pickle_node (branch_node axis s u)) with (axis, @inr (list Z) _ (s, u)).
    unfold decode_node.
    destruct (axis =? LEAF) eqn:E; [apply Z.eqb_eq in E; contradiction | ].
    unfold bind.
    rewrite (new_node_spec _ Hc), !update_extended. reflexivity.
Qed.

Lemma decode_all_written (l : list kdnode) :
  Forall written l ->
  forall self : KDTreeCore, counted self ->
  decode_nodes (map pickle_node l) self = Some (tt, extended self l).
Proof.
  induction 1 as [| n l Hn Hl IH]; intros self Hc; simpl.
  - unfold ret, extended, with_nodes. destruct Hc as [Hn Ha].
    rewrite app_nil_r, <- Hn, <- Ha. now destruct self.
  - unfold bind. rewrite (decode_written _ _ Hn Hc).
    rewrite IH by apply extended_counted.
    now rewrite extended_extended.
Qed.

(** The round trip through the pickled state, for a state with every slot
    written. *)
Lemma setstate_getstate_built (self : KDTreeCore) :
  built self ->
  exists state : pickled,
    __getstate__ self = Some state /\
    forall other : KDTreeCore, __setstate__ other state = Some self.
Proof.
  intros [Hw [Hn Ha]].
  exists (bounds self, map pickle_node (_nodes self),
          (_max_depth self, _min_items self, _hit_cost self, _empty_bonus self)).
  split.
  - unfold __getstate__. rewrite Hn, Nat2Z.id, take_ge by lia.
    now rewrite encode_all_written.
  - intros other. unfold __setstate__.
    rewrite (decode_all_written _ Hw) by (split; reflexivity).
    unfold extended, _reset, with_nodes. simpl.
    rewrite <- Hn, <- Ha. now destruct self.
Qed.

(** The axis of a split solution is one of the three axes. *)
Definition axis_found (st : sweep) : Prop :=
  is_leaf st = false -> 0 <= best_axis st <= 2.

Lemma sweep_edge_axis (self : KDTreeCore) (b : BoundingBox) (r : Q) (axis : Z)
      (st : sweep) (e : edge) :
  0 <= axis <= 2 -> axis_found st -> axis_found (sweep_edge self b r axis st e).
Proof.
  intros Hax H. unfold sweep_edge, axis_found in *.
  repeat match goal with
         | |- context [if ?c then _ else _] => destruct c
         end; simpl; auto.
Qed.

Lemma sweep_fold_axis (self : KDTreeCore) (b : BoundingBox) (r : Q) (axis : Z)
      (edges : list edge) :
  0 <= axis <= 2 ->
  forall st : sweep, axis_found st ->
  axis_found (fold_left (sweep_edge self b r axis) edges st).
Proof.
  intros Hax. induction edges as [| e edges IH]; intros st H; simpl.
  - exact H.
  - apply IH. now apply sweep_edge_axis.
Qed.

Lemma sweep_axes_axis (self : KDTreeCore) (its : list Item) (b : BoundingBox) (r : Q)
      (axes : list Z) :
  Forall (fun axis => 0 <= axis <= 2) axes ->
  forall st : sweep, axis_found st -> axis_found (sweep_axes self its b r st axes).
Proof.
  induction 1 as [| axis axes Hax Haxes IH]; intros st H; simpl.
  - exact H.
  - assert (axis_found (sweep_axis self its b r st axis)) as H'.
    { unfold sweep_axis. apply sweep_fold_axis; [exact Hax | exact H]. }
    destruct (negb (is_leaf (sweep_axis self its b r st axis))); auto.
Qed.

Lemma largest_axis_range (b : BoundingBox) : 0 <= largest_axis b <= 2.
Proof.
  unfold largest_axis, X_AXIS, Y_AXIS, Z_AXIS. destruct b as [| l u]; [lia | ].
  repeat match goal with
         | |- context [if ?c then _ else _] => destruct c
         end; lia.
Qed.

Lemma split_axis (self : KDTreeCore) (its : list Item) (b : BoundingBox)
      (axis : Z) (s : Q) (li ui : list Item) (lb ub : BoundingBox) :
  _split self its b = Some (axis, s, li, lb, ui, ub) -> axis <> LEAF.
Proof.
  unfold _split.
  match goal with
  | |- context [sweep_axes ?a ?b ?c ?d ?e ?f] =>
      pose proof (sweep_axes_axis a b c d f) as H; specialize (fun Hf => H Hf e);
      set (st := sweep_axes a b c d e f) in *
  end.
  destruct (is_leaf st) eqn:E; [discriminate | ].
  intros [= <- _ _ _ _ _]. unfold LEAF.
  assert (0 <= best_axis st <= 2); [ | lia].
  apply H; [ | discriminate | exact E].
  pose proof (largest_axis_range b).
  pose proof (Z.mod_pos_bound (largest_axis b + 1) 3 ltac:(lia)).
  pose proof (Z.mod_pos_bound (largest_axis b + 2) 3 ltac:(lia)).
  constructor; [lia | constructor; [lia | constructor; [lia | constructor]]].
Qed.

Lemma build_extends (fuel : nat) :
  forall (its : list Item) (b : BoundingBox) (depth : Z) (self self' : KDTreeCore) (i : Z),
    counted self ->
    _build fuel its b depth self = Some (i, self') ->
    exists new : list kdnode,
      Forall written new /\ self' = extended self new /\
      i = Z.of_nat (length (_nodes self)).
Proof.
  induction fuel as [| fuel IH]; intros its b depth self self' i Hc; simpl.
  - discriminate.
  - assert (_new_leaf its self = Some (i, self') ->
            exists new, Forall written new /\ self' = extended self new /\
                        i = Z.of_nat (length (_nodes self))) as Hleaf.
    { rewrite new_leaf_spec by exact Hc. intros [= <- <-].
      eexists. repeat split. repeat constructor. }
    destruct ((depth =? _max_depth self) || _); [exact Hleaf | ].
    destruct (_split self its b) as [[[[[[axis s] li] lb] ui] ub] | ] eqn:Hs;
      [ | exact Hleaf].
    apply split_axis in Hs. clear Hleaf.
    unfold _new_branch, bind. rewrite (new_node_spec _ Hc).
    destruct (_build fuel li lb (depth + 1) (extended self [blank_node]))
      as [[i1 self1] | ] eqn:B1; [ | discriminate].
    apply IH in B1; [ | apply extended_counted].
    destruct B1 as (new1 & W1 & -> & _).
    destruct (_build fuel ui ub (depth + 1) (extended (extended self [blank_node]) new1))
      as [[i2 self2] | ] eqn:B2; [ | discriminate].
    apply IH in B2; [ | apply extended_counted].
    destruct B2 as (new2 & W2 & -> & ->).
    rewrite !extended_extended. simpl.
    rewrite !update_extended. unfold ret. intros [= <- <-].
    exists (branch_node axis s
              (Z.of_nat (length (_nodes self ++ blank_node :: new1)))
              :: new1 ++ new2).
    split; [ | split; reflexivity].
    constructor; [now constructor | now apply Forall_app].
Qed.

(** With a budget beyond the depth still to go, [_build] returns. *)
Lemma build_returns (fuel : nat) :
  forall (its : list Item) (b : BoundingBox) (depth : Z) (self : KDTreeCore),
    counted self ->
    depth <= _max_depth self ->
    (Z.to_nat (_max_depth self - depth) < fuel)%nat ->
    exists (i : Z) (self' : KDTreeCore), _build fuel its b depth self = Some (i, self').
Proof.
  induction fuel as [| fuel IH]; intros its b depth self Hc Hd Hf; [lia | ].
  simpl.
  destruct (depth =? _max_depth self) eqn:E.
  { simpl. rewrite new_leaf_spec by exact Hc. eauto. }
  simpl. apply Z.eqb_neq in E.
  destruct (Z.of_nat (length its) <=? _min_items self).
  { rewrite new_leaf_spec by exact Hc. eauto. }
  destruct (_split self its b) as [[[[[[axis s] li] lb] ui] ub] | ].
  2: { rewrite new_leaf_spec by exact Hc. eauto. }
  unfold _new_branch, bind. rewrite (new_node_spec _ Hc).
  destruct (IH li lb (depth + 1) (extended self [blank_node])) as (i1 & self1 & B1).
  { apply extended_counted. }
  { simpl. lia. }
  { simpl. lia. }
  rewrite B1. apply build_extends in B1; [ | apply extended_counted].
  destruct B1 as (new1 & _ & -> & _).
  destruct (IH ui ub (depth + 1) (extended (extended self [blank_node]) new1))
    as (i2 & self2 & B2).
  { apply extended_counted. }
  { simpl. lia. }
  { simpl. lia. }
  rewrite B2. apply build_extends in B2; [ | apply extended_counted].
  destruct B2 as (new2 & _ & -> & _).
  rewrite !extended_extended. simpl. rewrite !update_extended. unfold ret. eauto.
Qed.

(** The tree [__init__] builds has every slot written and its counters in
    step. *)
Lemma init_built (auto_depth : Z -> Z) (fuel : nat) (its : list Item)
      (max_depth min_items : Z) (hit_cost empty_bonus : Q) (self : KDTreeCore) :
  __init__ auto_depth fuel its max_depth min_items hit_cost empty_bonus = inr (Some self) ->
  built self.
Proof.
  unfold __init__.
  destruct (Qlt_bool empty_bonus 0 || Qlt_bool 1 empty_bonus); [discriminate | ].
  match goal with
  | |- context [_build fuel its ?b 0 ?s] =>
      destruct (_build fuel its b 0 s) as [[i self'] | ] eqn:B; [ | discriminate]
  end.
  apply build_extends in B; [ | split; reflexivity].
  destruct B as (new & W & -> & _). simpl. intros [= <-].
  split; [exact W | split; reflexivity].
Qed.

(** C7.  For a tree built by [__init__], [__getstate__] yields a state, and
    [__setstate__] applied to that state, on whatever object, yields the
    tree again: the same node array (order, types, split positions, upper
    node ids, item ids), the same bounds and settings; the queries on the
    restored tree are therefore those on the tree, for any hooks. *)
Theorem setstate_getstate_roundtrip
        (auto_depth : Z -> Z) (fuel : nat) (its : list Item)
        (max_depth min_items : Z) (hit_cost empty_bonus : Q) (self : KDTreeCore) :
  __init__ auto_depth fuel its max_depth min_items hit_cost empty_bonus = inr (Some self) ->
  exists state : pickled,
    __getstate__ self = Some state /\
    forall other : KDTreeCore,
    exists restored : KDTreeCore,
      __setstate__ other state = Some restored /\
      restored = self /\
      (forall hit_leaf fuel' ray,
          hit hit_leaf fuel' restored ray = hit hit_leaf fuel' self ray) /\
      (forall contains_leaf fuel' point,
          contains contains_leaf fuel' restored point =
          contains contains_leaf fuel' self point).
Proof.
  intros H. apply init_built in H.
  destruct (setstate_getstate_built self H) as (state & Hg & Hs).
  exists state. split; [exact Hg | ].
  intros other. exists self. repeat split. apply Hs.
Qed.

Lemma setstate_getstate_roundtrip_witness :
  exists state : pickled,
    __getstate__ three_boxes_tree = Some state /\
    forall other : KDTreeCore,
    exists restored : KDTreeCore,
      __setstate__ other state = Some restored /\
      restored = three_boxes_tree /\
      (forall hit_leaf fuel' ray,
          hit hit_leaf fuel' restored ray = hit hit_leaf fuel' three_boxes_tree ray) /\
      (forall contains_leaf fuel' point,
          contains contains_leaf fuel' restored point =
          contains contains_leaf fuel' three_boxes_tree point).
Proof.
  exact (setstate_getstate_roundtrip auto_depth_3 11 three_boxes 0 1 20 (1 # 5)
           three_boxes_tree three_boxes_built).
Defined.

(* ===================================================================== *)
(** * Properties of the glass material *)
(* ===================================================================== *)


Section GlassFacts.

Variables World OpticalRay Primitive AffineMatrix Spectrum : Type.
Variable sqrt : Q -> Q.
Variable vector_transform : Vector -> AffineMatrix -> Vector.
Variable point_transform : Point -> AffineMatrix -> Point.
Variable vector_normalise : Vector -> Vector.
Variable normal_normalise : Glass.Normal -> Glass.Normal.
Variable normal_dot : Glass.Normal -> Vector -> Q.
Variable ray_direction : OpticalRay -> Vector.
Variable refraction_wavelength : OpticalRay -> Q.
Variable spawn_daughter : OpticalRay -> Point -> Vector -> OpticalRay.
Variable trace : OpticalRay -> World -> Spectrum.
Variable new_spectrum : OpticalRay -> Spectrum.
Variable mul_scalar : Spectrum -> Q -> Spectrum.
Variable add_array : Spectrum -> Spectrum -> Spectrum.

(** C4.  When [c2s = 1 - gamma^2 (1 - c1^2) <= 0], [evaluate_surface]
    spawns one daughter ray, the reflected one with direction
    [I + 2 c1 N] taken to world space, from [inside_point] when exiting
    and from [outside_point] otherwise (taken to world space); it traces
    that ray and returns the spectrum of the trace as it is. *)
Theorem total_internal_reflection
        (self : Glass.t) (world : World) (ray : OpticalRay) (primitive : Primitive)
        (hit_point : Point) (exiting : bool) (inside_point outside_point : Point)
        (normal : Glass.Normal) (to_local to_world : AffineMatrix) :
  let I := vector_normalise (vector_transform (ray_direction ray) to_local) in
  let N := normal_normalise normal in
  let c1 := (- normal_dot N I)%Q in
  let n1 := if exiting then Glass.index self (refraction_wavelength ray) else 1%Q in
  let n2 := if exiting then 1%Q else Glass.index self (refraction_wavelength ray) in
  let gamma := (n1 / n2)%Q in
  (1 - (gamma * gamma) * (1 - c1 * c1) <= 0)%Q ->
  let R := vector_transform
             (mk_vector (vx I + 2 * c1 * Glass.nx N)
                        (vy I + 2 * c1 * Glass.ny N)
                        (vz I + 2 * c1 * Glass.nz N)) to_world in
  let start := point_transform (if exiting then inside_point else outside_point) to_world in
  let reflected_ray := spawn_daughter ray start R in
  Glass.evaluate_surface sqrt vector_transform point_transform vector_normalise
    normal_normalise normal_dot ray_direction refraction_wavelength spawn_daughter
    trace new_spectrum mul_scalar add_array
    self world ray primitive hit_point exiting inside_point outside_point
    normal to_local to_world
  = (trace reflected_ray world,
     [Glass.Spawn start R; Glass.Trace reflected_ray]).
Proof.
  intros I N c1 n1 n2 gamma H R start reflected_ray.
  unfold Glass.evaluate_surface.
  fold I N. fold c1. fold n1 n2. fold gamma.
  apply Qle_bool_iff in H. rewrite H.
  unfold reflected_ray, start, R, Glass.new_vector.
  now destruct exiting.
Qed.

End GlassFacts.

(** A ray leaving glass of index 3/2 along (4/5, 0, 3/5) through a surface
    of normal (0, 0, 1): beyond the critical angle.  The collaborators are
    the simplest ones: a ray is its direction, a spectrum the list of the
    rays traced into it, and the transforms are the identity. *)
Definition tir_dot (n : Glass.Normal) (v : Vector) : Q :=
  (Glass.nx n * vx v + Glass.ny n * vy v + Glass.nz n * vz v)%Q.
Definition tir_glass : Glass.t := Glass.mk (fun _ => 3 # 2) (fun _ _ => 1%Q) (1 # 1000000).
Definition tir_direction : Vector := mk_vector (4 # 5) 0 (3 # 5).
Definition tir_inside_point : Point := mk_point 0 0 (- (1 # 100)).
Definition tir_outside_point : Point := mk_point 0 0 (1 # 100).
Definition tir_reflected : Vector :=
  (mk_vector ((4 # 5) + 2 * - (0 * (4 # 5) + 0 * 0 + 1 * (3 # 5)) * 0)
             (0 + 2 * - (0 * (4 # 5) + 0 * 0 + 1 * (3 # 5)) * 0)
             ((3 # 5) + 2 * - (0 * (4 # 5) + 0 * 0 + 1 * (3 # 5)) * 1))%Q.

Lemma total_internal_reflection_witness :
  Glass.evaluate_surface (World := unit) (Primitive := unit) (AffineMatrix := unit)
    (fun q => q) (fun v _ => v) (fun p _ => p) (fun v => v) (fun n => n) tir_dot
    (fun r : Vector => r) (fun _ => 500%Q) (fun _ _ d => d)
    (fun r _ => [r]) (fun _ => []) (fun s _ => s) (fun s _ => s)
    tir_glass tt tir_direction tt (mk_point 0 0 0) true tir_inside_point tir_outside_point
    (Glass.mk_normal 0 0 1) tt tt
  = ([tir_reflected],
     [Glass.Spawn tir_inside_point tir_reflected; Glass.Trace tir_reflected]).
Proof.
  apply (total_internal_reflection unit Vector unit unit (list Vector)
           (fun q => q) (fun v _ => v) (fun p _ => p) (fun v => v) (fun n => n) tir_dot
           (fun r : Vector => r) (fun _ => 500%Q) (fun _ _ d => d)
           (fun r _ => [r]) (fun _ => []) (fun s _ => s) (fun s _ => s)
           tir_glass tt tir_direction tt (mk_point 0 0 0) true
           tir_inside_point tir_outside_point (Glass.mk_normal 0 0 1) tt tt).
  vm_compute. discriminate.
Defined.

(* ===================================================================== *)
(** * Properties of the spectral functions *)
(* ===================================================================== *)

(** The checks of [SampledSF.__init__] that raise a [ValueError]. *)
Lemma sampledsf_init_wavelength_errors (min_wl max_wl : Q) (n : Z) (fast : bool) :
  1 <= n ->
  (min_wl <= 0 \/ max_wl <= 0 \/ max_wl <= min_wl)%Q ->
  exists msg : string, SampledSF.__init__ min_wl max_wl n fast = inl (ValueError msg).
Proof.
  intros Hn H. unfold SampledSF.__init__.
  destruct (n <? 1) eqn:E; [apply Z.ltb_lt in E; lia | ].
  destruct (Qle_bool min_wl 0 || Qle_bool max_wl 0) eqn:E1; [eauto | ].
  apply orb_false_elim in E1. destruct E1 as [E1 E2].
  destruct H as [H | [H | H]]; apply Qle_bool_iff in H; try congruence.
  rewrite H. eauto.
Qed.

(** C6, on the code.  A sample count below one is answered with a
    [TypeError], not a [ValueError]; [InterpolatedSF] accepts a
    two-dimensional sample array whose first dimension has the length of the
    wavelength array, and answers a 0-dimensional sample array with an
    [IndexError]. *)
Theorem constructors_other_than_ValueError :
  SampledSF.__init__ 400 700 0 false
    = inl (TypeError "raise: exception class must be a subclass of BaseException") /\
  InterpolatedSF.__init__ (array1 [400; 700]%Q) (mk_ndarray [2; 2] [1; 2; 3; 4]%Q) false
    = inr (InterpolatedSF.mk (Some (array1 [400; 700]%Q))
                             (Some (mk_ndarray [2; 2] [1; 2; 3; 4]%Q)) false) /\
  InterpolatedSF.__init__ (array1 [400]%Q) (mk_ndarray [] [1]%Q) false
    = inl (IndexError "tuple index out of range").
Proof. repeat split; reflexivity. Qed.

Section SpectralFacts.

Variable interpolate : list Q -> list Q -> Q -> Q.
Variable integrate : list Q -> list Q -> Q -> Q -> Q.

(** The in-place arithmetic a holder of a [SampledSF] can apply to it. *)
Inductive arithmetic : (SampledSF.t -> option SampledSF.t) -> Prop :=
| arith_add_scalar (v : Q) : arithmetic (SampledSF.add_scalar v)
| arith_sub_scalar (v : Q) : arithmetic (SampledSF.sub_scalar v)
| arith_mul_scalar (v : Q) : arithmetic (SampledSF.mul_scalar v)
| arith_div_scalar (v : Q) : arithmetic (SampledSF.div_scalar v)
| arith_add_array (a : list Q) : arithmetic (SampledSF.add_array a)
| arith_sub_array (a : list Q) : arithmetic (SampledSF.sub_array a)
| arith_mul_array (a : list Q) : arithmetic (SampledSF.mul_array a)
| arith_div_array (a : list Q) : arithmetic (SampledSF.div_array a).

(** What a program holding a [ConstantSF] and references into the store
    can do, one call at a time. *)
Inductive client_step :
  ConstantSF.t * SampledSF.store -> ConstantSF.t * SampledSF.store -> Prop :=
| step_constant_sample c h min_wl max_wl n r c' h' :
    ConstantSF.sample_multiple c h min_wl max_wl n = Some (r, c', h') ->
    client_step (c, h) (c', h')
| step_sampled_sample c h self min_wl max_wl n r h' :
    SampledSF.sample_multiple interpolate integrate self h min_wl max_wl n
      = Some (inr (r, h')) ->
    client_step (c, h) (c, h')
| step_interpolated_sample c h isf min_wl max_wl n r h' :
    InterpolatedSF.sample_multiple interpolate integrate isf h min_wl max_wl n
      = inr (r, h') ->
    client_step (c, h) (c, h')
| step_construct c h min_wl max_wl n fast o :
    SampledSF.__init__ min_wl max_wl n fast = inr o ->
    client_step (c, h) (c, h ++ [o])
| step_arithmetic c h f r h' :
    arithmetic f -> SampledSF.update f r h = Some h' ->
    client_step (c, h) (c, h').

(** The states a program can be in after [ConstantSF(v)] was made. *)
Definition reachable (v : Q) (s : ConstantSF.t * SampledSF.store) : Prop :=
  exists h0 : SampledSF.store, rtc client_step (ConstantSF.__init__ v, h0) s.

(** The object behind [r] exists and its flag is off. *)
Definition slow_object (h : SampledSF.store) (r : ref) : Prop :=
  exists o : SampledSF.t, h !! r = Some o /\ SampledSF.fast_sample o = false.

(** Every object of [h] is still there in [h'], with its flag. *)
Definition flags_kept (h h' : SampledSF.store) : Prop :=
  forall (r : ref) (o : SampledSF.t),
    h !! r = Some o ->
    exists o' : SampledSF.t,
      h' !! r = Some o' /\ SampledSF.fast_sample o' = SampledSF.fast_sample o.

Lemma flags_kept_refl (h : SampledSF.store) : flags_kept h h.
Proof. intros r o H. eauto. Qed.

Lemma flags_kept_trans (h1 h2 h3 : SampledSF.store) :
  flags_kept h1 h2 -> flags_kept h2 h3 -> flags_kept h1 h3.
Proof.
  intros H12 H23 r o H. destruct (H12 r o H) as (o2 & H2 & E2).
  destruct (H23 r o2 H2) as (o3 & H3 & E3). exists o3. split; congruence.
Qed.

Lemma flags_kept_app (h l : SampledSF.store) : flags_kept h (h ++ l).
Proof. intros r o H. exists o. split; [now apply lookup_app_l_Some | reflexivity]. Qed.

Lemma flags_kept_insert (h : SampledSF.store) (k : ref) (o o' : SampledSF.t) :
  h !! k = Some o -> SampledSF.fast_sample o' = SampledSF.fast_sample o ->
  flags_kept h (<[k := o']> h).
Proof.
  intros Hk E r x Hr. destruct (decide (k = r)) as [-> | Hne].
  - exists o'. split; [ | congruence].
    apply list_lookup_insert_eq. eapply lookup_lt_Some. exact Hk.
  - exists x. split; [ | reflexivity]. now rewrite list_lookup_insert_ne.
Qed.

Lemma arithmetic_flag (f : SampledSF.t -> option SampledSF.t) (o o' : SampledSF.t) :
  arithmetic f -> f o = Some o' -> SampledSF.fast_sample o' = SampledSF.fast_sample o.
Proof.
  intros [v | v | v | v | a | a | a | a];
    unfold SampledSF.add_scalar, SampledSF.sub_scalar, SampledSF.mul_scalar,
      SampledSF.div_scalar, SampledSF.add_array, SampledSF.sub_array,
      SampledSF.mul_array, SampledSF.div_array,
      SampledSF.map_samples, SampledSF.zip_samples;
    destruct (SampledSF.samples o); try discriminate;
    try (destruct (_ <=? _)%nat; try discriminate);
    now intros [= <-].
Qed.

Lemma resample_flag (fast : bool) (w s : list Q) (min_wl : Q) (n : Z) (o : SampledSF.t) :
  SampledSF.fast_sample (SampledSF.resample interpolate integrate fast w s min_wl n o)
  = SampledSF.fast_sample o.
Proof. reflexivity. Qed.

Lemma populate_flag (o : SampledSF.t) :
  SampledSF.fast_sample (SampledSF._populate_wavelengths o) = SampledSF.fast_sample o.
Proof. unfold SampledSF._populate_wavelengths. now destruct (SampledSF._wavelengths o). Qed.

Lemma sampled_sample_cases (self : ref) (h : SampledSF.store) (min_wl max_wl : Q) (n : Z)
      (r : ref) (h' : SampledSF.store) :
  SampledSF.sample_multiple interpolate integrate self h min_wl max_wl n
    = Some (inr (r, h')) ->
  flags_kept h h' /\
  exists o : SampledSF.t,
    h !! self = Some o /\
    ((SampledSF.is_shaped o min_wl max_wl n = true /\ r = self /\ h' = h) \/
     (SampledSF.is_shaped o min_wl max_wl n = false /\ slow_object h' r)).
Proof.
  unfold SampledSF.sample_multiple.
  destruct (h !! self) as [o | ] eqn:Hself; [ | discriminate].
  destruct (SampledSF.samples o) as [smp | ]; [ | discriminate].
  destruct (negb _); [discriminate | ].
  destruct (SampledSF.is_shaped o min_wl max_wl n) eqn:Hshape.
  - intros [= <- <-]. split; [apply flags_kept_refl | ]. eauto 10.
  - unfold SampledSF.alloc.
    set (new := SampledSF.new_sampledsf min_wl max_wl n).
    set (o' := SampledSF._populate_wavelengths o).
    assert ((h ++ [new]) !! self = Some o) as H1 by now apply lookup_app_l_Some.
    assert (self < length h)%nat as Hlt by (eapply lookup_lt_Some; exact Hself).
    assert (<[self := o']> (h ++ [new]) !! length h = Some new) as H2.
    { rewrite list_lookup_insert_ne by lia. now apply list_lookup_middle. }
    rewrite H2. intros [= <- <-]. split.
    + eapply flags_kept_trans; [apply (flags_kept_app h [new]) | ].
      eapply flags_kept_trans.
      * apply (flags_kept_insert _ self o o' H1). apply populate_flag.
      * apply (flags_kept_insert _ (length h) new _ H2). apply resample_flag.
    + exists o. split; [reflexivity | right]. split; [exact Hshape | ].
      eexists. split.
      * apply list_lookup_insert_eq. rewrite length_insert, length_app. simpl. lia.
      * reflexivity.
Qed.

Lemma interpolated_sample_cases (isf : InterpolatedSF.t) (h : SampledSF.store)
      (min_wl max_wl : Q) (n : Z) (r : ref) (h' : SampledSF.store) :
  InterpolatedSF.sample_multiple interpolate integrate isf h min_wl max_wl n = inr (r, h') ->
  flags_kept h h' /\ slow_object h' r.
Proof.
  unfold InterpolatedSF.sample_multiple.
  destruct (InterpolatedSF.samples isf) as [smp | ]; [ | discriminate].
  destruct (InterpolatedSF.wavelengths isf) as [wl | ]; [ | discriminate].
  destruct (shape0 smp); [discriminate | ].
  destruct (shape0 wl); [discriminate | ].
  destruct (negb _); [discriminate | ].
  unfold SampledSF.alloc. intros [= <- <-]. split; [apply flags_kept_app | ].
  eexists. split; [now apply list_lookup_middle | reflexivity].
Qed.

(** The cache of a [ConstantSF], when set, refers to an object whose flag
    is off. *)
Definition cache_slow (s : ConstantSF.t * SampledSF.store) : Prop :=
  match ConstantSF.cached_samples (fst s) with
  | Some r => slow_object (snd s) r
  | None => True
  end.

Lemma constant_sample_slow (c : ConstantSF.t) (h : SampledSF.store) (min_wl max_wl : Q)
      (n : Z) (r : ref) (c' : ConstantSF.t) (h' : SampledSF.store) :
  cache_slow (c, h) ->
  ConstantSF.sample_multiple c h min_wl max_wl n = Some (r, c', h') ->
  slow_object h' r /\ cache_slow (c', h').
Proof.
  unfold cache_slow, ConstantSF.sample_multiple, ConstantSF.cache_hit. simpl.
  intros Hinv.
  destruct (ConstantSF.cached_samples c) as [rc | ] eqn:Hc.
  - destruct (h !! rc) as [o | ]; [ | discriminate].
    destruct (SampledSF.is_shaped o min_wl max_wl n).
    + intros [= <- <- <-]. rewrite Hc. auto.
    + unfold SampledSF.alloc. intros [= <- <- <-]. simpl.
      assert (slow_object (h ++ [SampledSF.with_samples
                (SampledSF.new_sampledsf min_wl max_wl n)
                (map (fun _ => ConstantSF.value c)
                   (default [] (SampledSF.samples (SampledSF.new_sampledsf min_wl max_wl n))))])
                (length h)); [ | auto].
      eexists. split; [now apply list_lookup_middle | reflexivity].
  - unfold SampledSF.alloc. intros [= <- <- <-]. simpl.
    assert (slow_object (h ++ [SampledSF.with_samples
              (SampledSF.new_sampledsf min_wl max_wl n)
              (map (fun _ => ConstantSF.value c)
                 (default [] (SampledSF.samples (SampledSF.new_sampledsf min_wl max_wl n))))])
              (length h)); [ | auto].
    eexists. split; [now apply list_lookup_middle | reflexivity].
Qed.

Lemma cache_slow_kept (c : ConstantSF.t) (h h' : SampledSF.store) :
  flags_kept h h' -> cache_slow (c, h) -> cache_slow (c, h').
Proof.
  unfold cache_slow. simpl. intros Hk.
  destruct (ConstantSF.cached_samples c) as [r | ]; [ | trivial].
  intros (o & Ho & Hf). destruct (Hk r o Ho) as (o' & Ho' & Hf').
  exists o'. split; congruence.
Qed.

Lemma client_step_cache_slow (s s' : ConstantSF.t * SampledSF.store) :
  client_step s s' -> cache_slow s -> cache_slow s'.
Proof.
  intros [c h min_wl max_wl n r c' h' H
         | c h self min_wl max_wl n r h' H
         | c h isf min_wl max_wl n r h' H
         | c h min_wl max_wl n fast o H
         | c h f r h' Hf H] Hinv.
  - now apply (constant_sample_slow _ _ _ _ _ _ _ _ Hinv) in H.
  - apply sampled_sample_cases in H. now apply (cache_slow_kept c h h').
  - apply interpolated_sample_cases in H. now apply (cache_slow_kept c h h').
  - apply (cache_slow_kept c h); [apply flags_kept_app | exact Hinv].
  - apply (cache_slow_kept c h); [ | exact Hinv].
    unfold SampledSF.update in H.
    destruct (h !! r) as [o | ] eqn:Hr; [ | discriminate].
    destruct (f o) as [o' | ] eqn:Hfo; [ | discriminate].
    injection H as <-. apply (flags_kept_insert h r o o' Hr).
    now apply (arithmetic_flag f).
Qed.

Lemma reachable_cache_slow (v : Q) (s : ConstantSF.t * SampledSF.store) :
  reachable v s -> cache_slow s.
Proof.
  intros [h0 H].
  assert (cache_slow (ConstantSF.__init__ v, h0)) as H0 by exact Logic.I.
  induction H as [| s1 s2 s3 Hstep Hrest IH]; [exact H0 | ].
  apply IH. now apply (client_step_cache_slow s1).
Qed.

(** C10.  The object [sample_multiple] returns has [fast_sample] off,
    whatever the flag of the function sampled: for [InterpolatedSF]; for
    [SampledSF], unless the shape asked for is its own, when the object
    itself is returned and nothing changes; and for [ConstantSF], on the
    new and on the cached path, in every state a program can reach. *)
Theorem sample_multiple_fast_sample_off :
  (forall isf h min_wl max_wl n r h',
      InterpolatedSF.sample_multiple interpolate integrate isf h min_wl max_wl n
        = inr (r, h') ->
      slow_object h' r) /\
  (forall self h min_wl max_wl n r h',
      SampledSF.sample_multiple interpolate integrate self h min_wl max_wl n
        = Some (inr (r, h')) ->
      exists o : SampledSF.t,
        h !! self = Some o /\
        ((SampledSF.is_shaped o min_wl max_wl n = true /\ r = self /\ h' = h) \/
         (SampledSF.is_shaped o min_wl max_wl n = false /\ slow_object h' r))) /\
  (forall v c h min_wl max_wl n r c' h',
      reachable v (c, h) ->
      ConstantSF.sample_multiple c h min_wl max_wl n = Some (r, c', h') ->
      slow_object h' r).
Proof.
  split; [ | split].
  - intros isf h min_wl max_wl n r h' H. now apply interpolated_sample_cases in H.
  - intros self h min_wl max_wl n r h' H. now apply sampled_sample_cases in H.
  - intros v c h min_wl max_wl n r c' h' Hr H.
    apply reachable_cache_slow in Hr.
    now apply (constant_sample_slow _ _ _ _ _ _ _ _ Hr) in H.
Qed.





End SpectralFacts.

(** One call caches an object of two bins. *)
Definition fresh_cache : ConstantSF.t * SampledSF.store :=
  (ConstantSF.mk 3 (Some 0%nat),
   [SampledSF.mk 400 700 2 ((700 - 400) / inject_Z 2) false (Some [3; 3]%Q) None]).

(** The caller then doubles the bins of the object it was handed; the next
    call of the same shape returns that object. *)
Definition doubled_cache : ConstantSF.t * SampledSF.store :=
  (ConstantSF.mk 3 (Some 0%nat),
   [SampledSF.mk 400 700 2 ((700 - 400) / inject_Z 2) false (Some [3 * 2; 3 * 2]%Q) None]).

Definition no_interpolate (x f : list Q) (p : Q) : Q := 0.
Definition no_integrate (x f : list Q) (x0 x1 : Q) : Q := 0.

Lemma fresh_cache_first_call :
  ConstantSF.sample_multiple (ConstantSF.__init__ 3) [] 400 700 2
  = Some (0%nat, fst fresh_cache, snd fresh_cache).
Proof. reflexivity. Qed.

Lemma doubled_cache_reachable : reachable no_interpolate no_integrate 3 doubled_cache.
Proof.
  exists []. eapply rtc_l.
  - eapply (step_constant_sample _ _ _ [] 400 700 2). exact fresh_cache_first_call.
  - eapply rtc_l; [ | apply rtc_refl].
    eapply (step_arithmetic _ _ _ _ (SampledSF.mul_scalar 2) 0%nat).
    + constructor.
    + reflexivity.
Qed.


Lemma sample_multiple_fast_sample_off_witness :
  slow_object (snd doubled_cache) 0%nat.
Proof.
  apply (proj2 (proj2 (sample_multiple_fast_sample_off no_interpolate no_integrate))
           3%Q (fst doubled_cache) (snd doubled_cache) 400%Q 700%Q 2 0%nat
           (fst doubled_cache) (snd doubled_cache)).
  - exact doubled_cache_reachable.
  - reflexivity.
Defined.



(* ===================================================================== *)
(** * Further properties of the kd-tree constructor *)
(* ===================================================================== *)

(** [lower] and [upper] of the box [inner] lie within the box [outer]. *)
Definition box_within (inner outer : BoundingBox) : Prop :=
  match inner, outer with
  | Box l u, Box l' u' =>
      (px l' <= px l /\ py l' <= py l /\ pz l' <= pz l /\
       px u <= px u' /\ py u <= py u' /\ pz u <= pz u')%Q
  | NullBox, _ => True
  | Box _ _, NullBox => False
  end.

Lemma Qmin_le_l (a b : Q) : (Qmin a b <= a)%Q.
Proof.
  unfold Qmin. destruct (Qle_bool a b) eqn:E; [apply Qle_refl | ].
  apply Qlt_le_weak, Qlt_bool_iff. unfold Qlt_bool. now rewrite E.
Qed.

Lemma Qmin_le_r (a b : Q) : (Qmin a b <= b)%Q.
Proof.
  unfold Qmin. destruct (Qle_bool a b) eqn:E; [now apply Qle_bool_iff | apply Qle_refl].
Qed.

Lemma Qmax_le_l (a b : Q) : (a <= Qmax a b)%Q.
Proof.
  unfold Qmax. destruct (Qle_bool a b) eqn:E; [now apply Qle_bool_iff | apply Qle_refl].
Qed.

Lemma Qmax_le_r (a b : Q) : (b <= Qmax a b)%Q.
Proof.
  unfold Qmax. destruct (Qle_bool a b) eqn:E; [apply Qle_refl | ].
  apply Qlt_le_weak, Qlt_bool_iff. unfold Qlt_bool. now rewrite E.
Qed.

Lemma box_within_refl (b : BoundingBox) : box_within b b.
Proof. destruct b as [| l u]; simpl; [trivial | ]. repeat split; apply Qle_refl. Qed.

Lemma box_within_trans (a b c : BoundingBox) :
  box_within a b -> box_within b c -> box_within a c.
Proof.
  destruct a as [| l u], b as [| l' u'], c as [| l'' u'']; simpl; try tauto.
  intros (H1 & H2 & H3 & H4 & H5 & H6) (G1 & G2 & G3 & G4 & G5 & G6).
  repeat split; eapply Qle_trans; eassumption.
Qed.

Lemma union_within_l (b other : BoundingBox) : box_within b (union b other).
Proof.
  destruct b as [| l u], other as [| l' u']; simpl; try trivial.
  - repeat split; apply Qle_refl.
  - repeat split; first [apply Qmin_le_l | apply Qmax_le_l].
Qed.

Lemma union_within_r (b other : BoundingBox) : box_within other (union b other).
Proof.
  destruct b as [| l u], other as [| l' u']; simpl; try trivial.
  - repeat split; apply Qle_refl.
  - repeat split; first [apply Qmin_le_r | apply Qmax_le_r].
Qed.

Lemma union_all_within (its : list Item) :
  forall acc : BoundingBox,
    box_within acc (fold_left (fun a item => union a (item_box item)) its acc) /\
    forall item : Item,
      In item its ->
      box_within (item_box item) (fold_left (fun a item => union a (item_box item)) its acc).
Proof.
  induction its as [| x its IH]; intros acc; simpl.
  - split; [apply box_within_refl | tauto].
  - destruct (IH (union acc (item_box x))) as [H1 H2]. split.
    + eapply box_within_trans; [apply union_within_l | exact H1].
    + intros item [<- | Hin]; [ | now apply H2].
      eapply box_within_trans; [apply union_within_r | exact H1].
Qed.

(** What [__init__] leaves in the attributes other than the node array. *)
Lemma init_attributes (auto_depth : Z -> Z) (fuel : nat) (its : list Item)
      (max_depth min_items : Z) (hit_cost empty_bonus : Q) (self : KDTreeCore) :
  __init__ auto_depth fuel its max_depth min_items hit_cost empty_bonus = inr (Some self) ->
  Qlt_bool empty_bonus 0 || Qlt_bool 1 empty_bonus = false /\
  bounds self = fold_left (fun a item => union a (item_box item)) its NullBox /\
  _max_depth self = (if Z.max 0 max_depth =? 0 then auto_depth (Z.of_nat (length its))
                     else Z.max 0 max_depth) /\
  _min_items self = Z.max 1 min_items /\
  _hit_cost self = Qmax 1 hit_cost /\
  _empty_bonus self = empty_bonus /\
  exists i : Z,
    _build fuel its (bounds self) 0
      (mk_kdtree [] 0 0 (bounds self) (_max_depth self) (_min_items self)
                 (_hit_cost self) (_empty_bonus self)) = Some (i, self).
Proof.
  unfold __init__.
  destruct (Qlt_bool empty_bonus 0 || Qlt_bool 1 empty_bonus); [discriminate | ].
  match goal with
  | |- context [_build fuel its ?b 0 ?s] =>
      destruct (_build fuel its b 0 s) as [[i self'] | ] eqn:B; [ | discriminate]
  end.
  simpl. intros [= <-].
  pose proof B as B'.
  apply build_extends in B'; [ | split; reflexivity].
  destruct B' as (new & _ & -> & _). simpl.
  repeat split. exists i. exact B.
Qed.




(** X3.  The bounds of a tree enclose the box of every item it was built
    from. *)
Theorem init_bounds_enclose_items
        (auto_depth : Z -> Z) (fuel : nat) (its : list Item)
        (max_depth min_items : Z) (hit_cost empty_bonus : Q) (self : KDTreeCore)
        (item : Item) :
  __init__ auto_depth fuel its max_depth min_items hit_cost empty_bonus = inr (Some self) ->
  In item its ->
  box_within (item_box item) (bounds self).
Proof.
  intros H Hin. apply init_attributes in H. destruct H as (_ & -> & _).
  now apply union_all_within.
Qed.

Lemma init_bounds_enclose_items_witness :
  box_within (Box (mk_point 2 0 0) (mk_point 3 1 1)) (bounds three_boxes_tree).
Proof.
  apply (init_bounds_enclose_items auto_depth_3 11 three_boxes 0 1 20 (1 # 5)
           three_boxes_tree
           (mk_item 1 (Some (Box (mk_point 2 0 0) (mk_point 3 1 1))))).
  - exact three_boxes_built.
  - simpl. auto.
Defined.

(* ===================================================================== *)
(** * Further properties of the split search *)
(* ===================================================================== *)

(** What the search has found so far: the best cost never exceeds the cost
    of a leaf, and a split, once found, is on one of the three axes,
    strictly inside the bounds, cheaper than a leaf, and at an edge of one
    of the items. *)
Definition split_ok (its : list Item) (b : BoundingBox) (leaf_cost : Q) (st : sweep) : Prop :=
  (best_cost st <= leaf_cost)%Q /\
  (is_leaf st = false ->
   0 <= best_axis st <= 2 /\
   (get_index (lower b) (best_axis st) < best_split st)%Q /\
   (best_split st < get_index (upper b) (best_axis st))%Q /\
   (best_cost st < leaf_cost)%Q /\
   exists item : Item,
     In item its /\
     (best_split st = get_index (lower (item_box item)) (best_axis st) \/
      best_split st = get_index (upper (item_box item)) (best_axis st))).

Lemma sweep_edge_best (self : KDTreeCore) (b : BoundingBox) (r : Q) (axis : Z)
      (st : sweep) (e : edge) :
  (best_cost (sweep_edge self b r axis st e) = best_cost st /\
   best_split (sweep_edge self b r axis st e) = best_split st /\
   best_axis (sweep_edge self b r axis st e) = best_axis st /\
   is_leaf (sweep_edge self b r axis st e) = is_leaf st) \/
  (Qlt_bool (get_index (lower b) axis) (value e) = true /\
   Qlt_bool (value e) (get_index (upper b) axis) = true /\
   (best_cost (sweep_edge self b r axis st e) < best_cost st)%Q /\
   best_split (sweep_edge self b r axis st e) = value e /\
   best_axis (sweep_edge self b r axis st e) = axis /\
   is_leaf (sweep_edge self b r axis st e) = false).
Proof.
  unfold sweep_edge.
  destruct (Qlt_bool (get_index (lower b) axis) (value e)) eqn:E1; simpl;
    [ | destruct (is_upper_edge e); simpl; auto].
  destruct (Qlt_bool (value e) (get_index (upper b) axis)) eqn:E2; simpl;
    [ | destruct (is_upper_edge e); simpl; auto].
  match goal with
  | |- context [if Qlt_bool ?c (best_cost st) then _ else _] =>
      destruct (Qlt_bool c (best_cost st)) eqn:E3
  end.
  - apply Qlt_bool_iff in E3. right.
    destruct (is_upper_edge e); simpl; auto 10.
  - left. destruct (is_upper_edge e); simpl; auto.
Qed.

Lemma sweep_edge_ok (self : KDTreeCore) (its : list Item) (b : BoundingBox) (r : Q)
      (leaf_cost : Q) (axis : Z) (st : sweep) (e : edge) :
  0 <= axis <= 2 ->
  (exists item : Item, In item its /\ In e (item_edges axis item)) ->
  split_ok its b leaf_cost st ->
  split_ok its b leaf_cost (sweep_edge self b r axis st e).
Proof.
  intros Hax (item & Hin & He) [Hc Hf]. unfold split_ok.
  destruct (sweep_edge_best self b r axis st e)
    as [(-> & -> & -> & ->) | (E1 & E2 & Hlt & -> & -> & ->)].
  - split; assumption.
  - apply Qlt_bool_iff in E1. apply Qlt_bool_iff in E2.
    split; [apply Qlt_le_weak; eapply Qlt_le_trans; eassumption | ].
    intros _. repeat split; try lia; try assumption.
    + eapply Qlt_le_trans; eassumption.
    + exists item. split; [exact Hin | ].
      simpl in He. destruct He as [<- | [<- | []]]; simpl; auto.
Qed.

Lemma fold_left_In_invariant {A B : Type} (f : A -> B -> A) (Inv : A -> Prop) (l : list B) :
  (forall (a : A) (x : B), In x l -> Inv a -> Inv (f a x)) ->
  forall a : A, Inv a -> Inv (fold_left f l a).
Proof.
  induction l as [| x l IH]; intros Hf a Ha; simpl.
  - exact Ha.
  - apply IH.
    + intros a' y Hy. apply Hf. now right.
    + apply Hf; [now left | exact Ha].
Qed.

Lemma get_edges_In (its : list Item) (axis : Z) (e : edge) :
  In e (_get_edges its axis) ->
  exists item : Item, In item its /\ In e (item_edges axis item).
Proof.
  intros H. unfold _get_edges in H.
  apply (Permutation_in e (Permutation_sym (qsort_perm _edge_compare _))) in H.
  apply in_flat_map in H. exact H.
Qed.

Lemma sweep_axes_ok (self : KDTreeCore) (its : list Item) (b : BoundingBox) (r : Q)
      (leaf_cost : Q) (axes : list Z) :
  Forall (fun axis => 0 <= axis <= 2) axes ->
  forall st : sweep,
    split_ok its b leaf_cost st ->
    split_ok its b leaf_cost (sweep_axes self its b r st axes).
Proof.
  induction 1 as [| axis axes Hax Haxes IH]; intros st H; simpl.
  - exact H.
  - assert (split_ok its b leaf_cost (sweep_axis self its b r st axis)) as H'.
    { unfold sweep_axis. apply fold_left_In_invariant.
      - intros a e He Ha. apply sweep_edge_ok; [exact Hax | now apply get_edges_In | exact Ha].
      - exact H. }
    destruct (negb (is_leaf (sweep_axis self its b r st axis))); auto.
Qed.

Lemma split_facts (self : KDTreeCore) (its : list Item) (b : BoundingBox)
      (axis : Z) (s : Q) (li ui : list Item) (lb ub : BoundingBox) :
  _split self its b = Some (axis, s, li, lb, ui, ub) ->
  0 <= axis <= 2 /\
  (get_index (lower b) axis < s)%Q /\ (s < get_index (upper b) axis)%Q /\
  (exists item : Item,
      In item its /\
      (s = get_index (lower (item_box item)) axis \/
       s = get_index (upper (item_box item)) axis)) /\
  li = List.filter (in_lower axis s) its /\
  ui = List.filter (in_upper axis s) its /\
  lb = _get_lower_bounds b s axis /\
  ub = _get_upper_bounds b s axis.
Proof.
  unfold _split.
  match goal with
  | |- context [sweep_axes ?a ?b ?c ?d ?e ?f] =>
      pose proof (sweep_axes_ok a b c d
                    (inject_Z (Z.of_nat (length its)) * _hit_cost self)%Q f) as H;
      specialize (fun Hf => H Hf e);
      set (st := sweep_axes a b c d e f) in *
  end.
  destruct (is_leaf st) eqn:E; [discriminate | ].
  intros [= <- <- <- <- <- <-].
  destruct H as [_ H].
  - pose proof (largest_axis_range b).
    pose proof (Z.mod_pos_bound (largest_axis b + 1) 3 ltac:(lia)).
    pose proof (Z.mod_pos_bound (largest_axis b + 2) 3 ltac:(lia)).
    constructor; [lia | constructor; [lia | constructor; [lia | constructor]]].
  - split; [apply Qle_refl | discriminate].
  - destruct (H E) as (Hax & Hl & Hu & _ & Hitem). auto 10.
Qed.

(** X4.  A split solution lies on one of the three axes, strictly inside
    the bounds of the node along that axis, at the lower or the upper edge
    of one of the items; the two lists it carries are the items that start
    below the plane and the items that end above it. *)
Theorem split_solution_inside_bounds
        (self : KDTreeCore) (its : list Item) (b : BoundingBox)
        (axis : Z) (s : Q) (li ui : list Item) (lb ub : BoundingBox) :
  _split self its b = Some (axis, s, li, lb, ui, ub) ->
  0 <= axis <= 2 /\
  (get_index (lower b) axis < s)%Q /\ (s < get_index (upper b) axis)%Q /\
  (exists item : Item,
      In item its /\
      (s = get_index (lower (item_box item)) axis \/
       s = get_index (upper (item_box item)) axis)) /\
  li = List.filter (in_lower axis s) its /\
  ui = List.filter (in_upper axis s) its.
Proof.
  intros H. apply split_facts in H.
  destruct H as (H1 & H2 & H3 & H4 & H5 & H6 & _). auto 10.
Qed.

Lemma split_solution_inside_bounds_witness :
  0 <= X_AXIS <= 2 /\
  (get_index (lower (bounds flat_items_tree)) X_AXIS < 1)%Q /\
  (1 < get_index (upper (bounds flat_items_tree)) X_AXIS)%Q /\
  (exists item : Item,
      In item flat_items /\
      (1%Q = get_index (lower (item_box item)) X_AXIS \/
       1%Q = get_index (upper (item_box item)) X_AXIS)) /\
  [mk_item 0 (Some (Box (mk_point 0 0 0) (mk_point (1 # 2) 1 1)))]
    = List.filter (in_lower X_AXIS 1) flat_items /\
  [mk_item 2 (Some (Box (mk_point 2 0 0) (mk_point 3 1 1)))]
    = List.filter (in_upper X_AXIS 1) flat_items.
Proof.
  apply (split_solution_inside_bounds flat_items_tree flat_items (bounds flat_items_tree)
           X_AXIS 1%Q _ _ (Box (mk_point 0 0 0) (mk_point 1 1 1))
           (Box (mk_point 1 0 0) (mk_point 3 1 1))).
  vm_compute. reflexivity.
Defined.

(** X5.  The partition loses an item only when its box lies in the split
    plane: an item whose lower edge is not above its upper edge is in the
    lower list, in the upper list or in both, unless both edges are at the
    split. *)
Theorem partition_drops_only_items_in_plane (axis : Z) (s : Q) (item : Item) :
  (get_index (lower (item_box item)) axis <= get_index (upper (item_box item)) axis)%Q ->
  (in_lower axis s item = false /\ in_upper axis s item = false) <->
  (get_index (lower (item_box item)) axis == s /\
   get_index (upper (item_box item)) axis == s)%Q.
Proof.
  intros Hle. unfold in_lower, in_upper. rewrite !Qlt_bool_false_iff. split.
  - intros [H1 H2]. split; apply Qle_antisym; try assumption.
    + eapply Qle_trans; eassumption.
    + eapply Qle_trans; eassumption.
  - intros [H1 H2]. rewrite H1, H2. split; apply Qle_refl.
Qed.

Lemma partition_drops_only_items_in_plane_witness :
  (in_lower X_AXIS 1 (mk_item 1 (Some (Box (mk_point 1 0 0) (mk_point 1 1 1)))) = false /\
   in_upper X_AXIS 1 (mk_item 1 (Some (Box (mk_point 1 0 0) (mk_point 1 1 1)))) = false) <->
  (get_index (lower (item_box (mk_item 1 (Some (Box (mk_point 1 0 0) (mk_point 1 1 1))))))
     X_AXIS == 1 /\
   get_index (upper (item_box (mk_item 1 (Some (Box (mk_point 1 0 0) (mk_point 1 1 1))))))
     X_AXIS == 1)%Q.
Proof.
  apply (partition_drops_only_items_in_plane X_AXIS 1
           (mk_item 1 (Some (Box (mk_point 1 0 0) (mk_point 1 1 1))))).
  vm_compute. discriminate.
Defined.

(* ===================================================================== *)
(** * The shape of the node array *)
(* ===================================================================== *)

(** [tree_at P h base new]: the nodes [new], standing in the array from
    index [base] on, are a subtree in the order [_build] emits it: a leaf
    whose ids satisfy [P], or a branch followed by its lower subtree and
    then its upper subtree, whose index the branch holds.  The subtree is at
    most [h] branches deep. *)
Inductive tree_at (P : list Z -> Prop) : nat -> nat -> list kdnode -> Prop :=
| tree_leaf (h base : nat) (ids : list Z) :
    P ids -> tree_at P h base [leaf_node ids]
| tree_branch (h base : nat) (axis : Z) (s : Q) (l1 l2 : list kdnode) :
    0 <= axis <= 2 ->
    tree_at P h (S base) l1 ->
    tree_at P h (S base + length l1) l2 ->
    tree_at P (S h) base
            (branch_node axis s (Z.of_nat (S base + length l1)) :: l1 ++ l2).

Lemma tree_at_impl (P P' : list Z -> Prop) (h base : nat) (new : list kdnode) :
  (forall ids, P ids -> P' ids) -> tree_at P h base new -> tree_at P' h base new.
Proof.
  intros HP. induction 1 as [h base ids Hids | h base axis s l1 l2 Hax _ IH1 _ IH2].
  - constructor. now apply HP.
  - now constructor.
Qed.

Lemma tree_at_nonempty (P : list Z -> Prop) (h base : nat) (new : list kdnode) :
  tree_at P h base new -> (0 < length new)%nat.
Proof. destruct 1; simpl; lia. Qed.

(** The depth [_build] can still go to: down to [max_depth] when it has
    not passed it, and as far as the budget of the model otherwise. *)
Definition height_bound (fuel : nat) (depth max_depth : Z) : nat :=
  if depth <=? max_depth then Z.to_nat (max_depth - depth) else fuel.

Lemma filter_ids_incl (f : Item -> bool) (sub its : list Item) (ids : list Z) :
  sub = List.filter f its -> incl ids (map id sub) -> incl ids (map id its).
Proof.
  intros -> H x Hx. apply H in Hx. apply in_map_iff in Hx.
  destruct Hx as (item & <- & Hin). apply filter_In in Hin.
  apply in_map. tauto.
Qed.

Lemma build_tree (fuel : nat) :
  forall (its : list Item) (b : BoundingBox) (depth : Z) (self self' : KDTreeCore) (i : Z),
    counted self ->
    _build fuel its b depth self = Some (i, self') ->
    exists new : list kdnode,
      self' = extended self new /\
      tree_at (fun ids => incl ids (map id its))
              (height_bound fuel depth (_max_depth self))
              (length (_nodes self)) new.
Proof.
  induction fuel as [| fuel IH]; intros its b depth self self' i Hc; simpl.
  - discriminate.
  - assert (_new_leaf its self = Some (i, self') ->
            exists new, self' = extended self new /\
                        tree_at (fun ids => incl ids (map id its))
                                (height_bound (S fuel) depth (_max_depth self))
                                (length (_nodes self)) new) as Hleaf.
    { rewrite new_leaf_spec by exact Hc. intros [= <- <-].
      eexists. split; [reflexivity | ]. constructor. apply incl_refl. }
    destruct (depth =? _max_depth self) eqn:Ed; [exact Hleaf | ].
    simpl. destruct (Z.of_nat (length its) <=? _min_items self); [exact Hleaf | ].
    destruct (_split self its b) as [[[[[[axis s] li] lb] ui] ub] | ] eqn:Hs;
      [ | exact Hleaf].
    clear Hleaf. apply Z.eqb_neq in Ed.
    apply split_facts in Hs. destruct Hs as (Hax & _ & _ & _ & Hli & Hui & _ & _).
    unfold _new_branch, bind. rewrite (new_node_spec _ Hc).
    destruct (_build fuel li lb (depth + 1) (extended self [blank_node]))
      as [[i1 self1] | ] eqn:B1; [ | discriminate].
    apply IH in B1; [ | apply extended_counted].
    destruct B1 as (new1 & -> & T1).
    destruct (_build fuel ui ub (depth + 1) (extended (extended self [blank_node]) new1))
      as [[i2 self2] | ] eqn:B2; [ | discriminate].
    pose proof B2 as B2'.
    apply build_extends in B2'; [ | apply extended_counted].
    destruct B2' as (_ & _ & _ & ->).
    apply IH in B2; [ | apply extended_counted].
    destruct B2 as (new2 & -> & T2).
    rewrite !extended_extended. simpl.
    rewrite !update_extended. unfold ret. intros [= <- <-].
    eexists. split; [reflexivity | ].
    simpl in T1, T2.
    assert (height_bound (S fuel) depth (_max_depth self)
            = S (height_bound fuel (depth + 1) (_max_depth self))) as ->.
    { unfold height_bound.
      destruct (depth <=? _max_depth self) eqn:E1.
      - apply Z.leb_le in E1.
        destruct (depth + 1 <=? _max_depth self) eqn:E2; [ | apply Z.leb_gt in E2; lia].
        lia.
      - apply Z.leb_gt in E1.
        destruct (depth + 1 <=? _max_depth self) eqn:E2; [apply Z.leb_le in E2; lia | ].
        reflexivity. }
    rewrite !length_app in *. simpl in *.
    replace (length (_nodes self) + 1)%nat with (S (length (_nodes self))) in * by lia.
    replace (length (_nodes self) + S (length new1))%nat
      with (S (length (_nodes self)) + length new1)%nat by lia.
    constructor; [exact Hax | | ].
    + eapply tree_at_impl; [ | exact T1]. intros ids. now apply filter_ids_incl with (f := in_lower axis s).
    + eapply tree_at_impl; [ | exact T2]. intros ids. now apply filter_ids_incl with (f := in_upper axis s).
Qed.

(** The node array of the tree [__init__] builds is one subtree, standing
    at the root. *)
Lemma init_tree (auto_depth : Z -> Z) (fuel : nat) (its : list Item)
      (max_depth min_items : Z) (hit_cost empty_bonus : Q) (self : KDTreeCore) :
  __init__ auto_depth fuel its max_depth min_items hit_cost empty_bonus = inr (Some self) ->
  tree_at (fun ids => incl ids (map id its))
          (height_bound fuel 0 (_max_depth self)) 0 (_nodes self).
Proof.
  intros H. apply init_attributes in H.
  destruct H as (_ & _ & _ & _ & _ & _ & i & B).
  apply build_tree in B; [ | split; reflexivity].
  destruct B as (new & E & T). simpl in T.
  rewrite E at 2. exact T.
Qed.

Lemma tree_at_lookup (P : list Z -> Prop) (h base : nat) (new : list kdnode) :
  tree_at P h base new ->
  forall (k : nat) (node : kdnode),
    new !! k = Some node ->
    (exists ids : list Z, node = leaf_node ids /\ P ids) \/
    (exists (axis : Z) (s : Q) (u : nat),
        node = branch_node axis s (Z.of_nat u) /\ 0 <= axis <= 2 /\
        (base + k + 1 < u < base + length new)%nat).
Proof.
  induction 1 as [h base ids Hids | h base axis s l1 l2 Hax T1 IH1 T2 IH2];
    intros k node Hk.
  - destruct k as [| k]; [ | discriminate]. injection Hk as <-. left. eauto.
  - pose proof (tree_at_nonempty _ _ _ _ T1). pose proof (tree_at_nonempty _ _ _ _ T2).
    destruct k as [| k]; simpl in Hk.
    + injection Hk as <-. right. exists axis, s, (S base + length l1)%nat.
      repeat split; try lia. simpl. rewrite length_app. lia.
    + destruct (decide (k < length l1)%nat) as [Hlt | Hge].
      * rewrite lookup_app_l in Hk by exact Hlt.
        destruct (IH1 k node Hk) as [Hl | (a & s' & u & -> & Ha & Hu)]; [now left | ].
        right. exists a, s', u. repeat split; try lia. simpl. rewrite length_app. lia.
      * rewrite lookup_app_r in Hk by lia.
        destruct (IH2 (k - length l1)%nat node Hk) as [Hl | (a & s' & u & -> & Ha & Hu)];
          [now left | ].
        right. exists a, s', u. repeat split; try lia. simpl. rewrite length_app. lia.
Qed.

(** X6.  Every node of a built tree is either a leaf whose ids are ids of
    the items given to the constructor, or a branch on one of the three
    axes whose lower child is the next node and whose upper child lies
    further on, inside the part of the array in use. *)
Theorem built_tree_node_shape
        (auto_depth : Z -> Z) (fuel : nat) (its : list Item)
        (max_depth min_items : Z) (hit_cost empty_bonus : Q) (self : KDTreeCore)
        (i : nat) (node : kdnode) :
  __init__ auto_depth fuel its max_depth min_items hit_cost empty_bonus = inr (Some self) ->
  _nodes self !! i = Some node ->
  (exists ids : list Z,
      node = leaf_node ids /\ forall x : Z, In x ids -> In x (map id its)) \/
  (exists (axis : Z) (s : Q) (upper_id : Z),
      node = branch_node axis s upper_id /\ 0 <= axis <= 2 /\
      Z.of_nat i + 1 < upper_id < _next_node self).
Proof.
  intros H Hi. pose proof (init_built _ _ _ _ _ _ _ _ H) as (_ & Hn & _).
  apply init_tree in H.
  destruct (tree_at_lookup _ _ _ _ H i node Hi) as [(ids & -> & Hids) | (a & s & u & -> & Ha & Hu)].
  - left. exists ids. split; [reflexivity | exact Hids].
  - right. exists a, s, (Z.of_nat u). repeat split; try lia.
Qed.

Lemma built_tree_node_shape_witness :
  (exists ids : list Z,
      branch_node X_AXIS 3 4 = leaf_node ids /\
      forall x : Z, In x ids -> In x (map id three_boxes)) \/
  (exists (axis : Z) (s : Q) (upper_id : Z),
      branch_node X_AXIS 3 4 = branch_node axis s upper_id /\ 0 <= axis <= 2 /\
      Z.of_nat 2 + 1 < upper_id < _next_node three_boxes_tree).
Proof.
  exact (built_tree_node_shape auto_depth_3 11 three_boxes 0 1 20 (1 # 5)
           three_boxes_tree 2%nat (branch_node X_AXIS 3 4) three_boxes_built eq_refl).
Defined.

Lemma alloc_for_room (n : nat) :
  Z.of_nat n <= alloc_for n /\
  (n = 0%nat \/ alloc_for n = INITIAL_NODE_COUNT \/ alloc_for n < 2 * Z.of_nat n) /\
  (alloc_for n = 0 \/ exists k : nat, alloc_for n = INITIAL_NODE_COUNT * 2 ^ Z.of_nat k).
Proof.
  unfold INITIAL_NODE_COUNT.
  induction n as [| n IH]; [simpl; repeat split; auto; lia | ].
  destruct IH as (IH1 & IH2 & IH3).
  cbn [alloc_for]. unfold INITIAL_NODE_COUNT.
  destruct (Z.of_nat n =? alloc_for n) eqn:E.
  - apply Z.eqb_eq in E. rewrite <- E in *. repeat split.
    + lia.
    + right. lia.
    + right. destruct IH3 as [H0 | (k & Hk)].
      * exists 0%nat. lia.
      * exists (S k). rewrite Nat2Z.inj_succ, Z.pow_succ_r by lia.
        assert (0 < 2 ^ Z.of_nat k) by (apply Z.pow_pos_nonneg; lia). lia.
  - apply Z.eqb_neq in E. repeat split.
    + lia.
    + destruct IH2 as [-> | [H | H]]; [simpl in *; lia | auto | right; right; lia].
    + exact IH3.
Qed.

(** X7.  The nodes of a built tree fit the array allocated for them: the
    tree has at least one node, the array has 128 slots doubled some number
    of times, at least as many as there are nodes, and it has 128 slots or
    fewer than twice the number of nodes. *)
Theorem built_tree_fits_allocation
        (auto_depth : Z -> Z) (fuel : nat) (its : list Item)
        (max_depth min_items : Z) (hit_cost empty_bonus : Q) (self : KDTreeCore) :
  __init__ auto_depth fuel its max_depth min_items hit_cost empty_bonus = inr (Some self) ->
  _next_node self = Z.of_nat (length (_nodes self)) /\
  0 < _next_node self <= _allocated_nodes self /\
  (exists k : nat, _allocated_nodes self = INITIAL_NODE_COUNT * 2 ^ Z.of_nat k) /\
  (_allocated_nodes self = INITIAL_NODE_COUNT \/ _allocated_nodes self < 2 * _next_node self).
Proof.
  intros H. pose proof (init_built _ _ _ _ _ _ _ _ H) as (_ & Hn & Ha).
  apply init_tree, tree_at_nonempty in H.
  destruct (alloc_for_room (length (_nodes self))) as (H1 & H2 & H3).
  rewrite Ha, Hn. split; [reflexivity | ]. split; [lia | ]. split.
  - destruct H3 as [H0 | Hk]; [lia | exact Hk].
  - destruct H2 as [H0 | [H2 | H2]]; [lia | auto | auto].
Qed.

Lemma built_tree_fits_allocation_witness :
  _next_node three_boxes_tree = Z.of_nat (length (_nodes three_boxes_tree)) /\
  0 < _next_node three_boxes_tree <= _allocated_nodes three_boxes_tree /\
  (exists k : nat, _allocated_nodes three_boxes_tree = INITIAL_NODE_COUNT * 2 ^ Z.of_nat k) /\
  (_allocated_nodes three_boxes_tree = INITIAL_NODE_COUNT \/
   _allocated_nodes three_boxes_tree < 2 * _next_node three_boxes_tree).
Proof.
  exact (built_tree_fits_allocation auto_depth_3 11 three_boxes 0 1 20 (1 # 5)
           three_boxes_tree three_boxes_built).
Defined.

(* ===================================================================== *)
(** * Further properties of the traversal *)
(* ===================================================================== *)

Lemma node_at_middle (self : KDTreeCore) (pre post : list kdnode) (n : kdnode) :
  _nodes self = pre ++ n :: post -> node_at self (Z.of_nat (length pre)) = Some n.
Proof.
  intros H. unfold node_at.
  destruct (Z.of_nat (length pre) <? 0) eqn:E; [apply Z.ltb_lt in E; lia | ].
  rewrite Nat2Z.id, H. now apply list_lookup_middle.
Qed.

Lemma axis_not_LEAF (axis : Z) : 0 <= axis <= 2 -> (axis =? LEAF) = false.
Proof. intros H. apply Z.eqb_neq. unfold LEAF. lia. Qed.

(** The descent for a point through a subtree ends in one of its leaves,
    and the answer is the answer of the hook for that leaf. *)
Lemma contains_node_tree (hook : KDTreeCore -> Z -> Point -> option (list Z))
      (P : list Z -> Prop) (h base : nat) (new : list kdnode) :
  tree_at P h base new ->
  forall (self : KDTreeCore) (pre post : list kdnode) (fuel : nat) (point : Point),
    _nodes self = pre ++ new ++ post -> length pre = base -> (h < fuel)%nat ->
    exists (j : nat) (ids : list Z),
      _nodes self !! j = Some (leaf_node ids) /\ P ids /\
      _contains_node hook fuel self (Z.of_nat base) point = hook self (Z.of_nat j) point.
Proof.
  induction 1 as [h base ids Hids | h base axis s l1 l2 Hax T1 IH1 T2 IH2];
    intros self pre post fuel point Hn Hb Hf.
  - destruct fuel as [| fuel]; [lia | ]. subst base.
    exists (length pre), ids. split; [ | split; [exact Hids | ]].
    + rewrite Hn. now apply list_lookup_middle.
    + simpl. now rewrite (node_at_middle self pre post (leaf_node ids) Hn).
  - destruct fuel as [| fuel]; [lia | ]. subst base.
    simpl in Hn. simpl.
    rewrite (node_at_middle self pre _ _ Hn). simpl.
    rewrite (axis_not_LEAF axis Hax). unfold _contains_branch. simpl.
    destruct (Qlt_bool (get_index point axis) s).
    + replace (Z.of_nat (length pre) + 1) with (Z.of_nat (S (length pre))) by lia.
      apply (IH1 self (pre ++ [branch_node axis s (Z.of_nat (S (length pre) + length l1))])
                 (l2 ++ post)).
      * rewrite Hn, <- !app_assoc. reflexivity.
      * rewrite length_app. simpl. lia.
      * lia.
    + apply (IH2 self (pre ++ branch_node axis s (Z.of_nat (S (length pre) + length l1)) :: l1)
                 post).
      * rewrite Hn, <- !app_assoc. reflexivity.
      * rewrite length_app. simpl. lia.
      * lia.
Qed.

(** The traversal for a ray through a subtree returns when the hook
    does. *)
Lemma hit_node_tree (hook : KDTreeCore -> Z -> Ray -> Q -> option bool)
      (P : list Z -> Prop) (h base : nat) (new : list kdnode) :
  tree_at P h base new ->
  forall (self : KDTreeCore) (pre post : list kdnode) (fuel : nat) (ray : Ray),
    _nodes self = pre ++ new ++ post -> length pre = base -> (h < fuel)%nat ->
    (forall (j : nat) (ids : list Z) (r : Q),
        _nodes self !! j = Some (leaf_node ids) ->
        exists answer : bool, hook self (Z.of_nat j) ray r = Some answer) ->
    forall min_range max_range : Q,
    exists (answer : bool) (visited : list Z),
      _hit_node hook fuel self (Z.of_nat base) ray min_range max_range
      = Some (answer, visited).
Proof.
  induction 1 as [h base ids Hids | h base axis s l1 l2 Hax T1 IH1 T2 IH2];
    intros self pre post fuel ray Hn Hb Hf Hhook min_range max_range.
  - destruct fuel as [| fuel]; [lia | ]. subst base.
    simpl. rewrite (node_at_middle self pre post (leaf_node ids) Hn). simpl.
    destruct (Hhook (length pre) ids max_range) as [answer ->]; [ | eauto].
    rewrite Hn. now apply list_lookup_middle.
  - destruct fuel as [| fuel]; [lia | ]. subst base.
    change ((branch_node axis s (Z.of_nat (S (length pre) + length l1)) :: l1 ++ l2) ++ post)
      with (branch_node axis s (Z.of_nat (S (length pre) + length l1)) :: (l1 ++ l2) ++ post)
      in Hn.
    cbn [_hit_node].
    rewrite (node_at_middle self pre _ _ Hn). cbn [type branch_node].
    rewrite (axis_not_LEAF axis Hax). unfold _hit_branch. cbn [type split count branch_node].
    replace (Z.of_nat (length pre) + 1) with (Z.of_nat (S (length pre))) by lia.
    assert (forall a b, exists answer visited,
               _hit_node hook fuel self (Z.of_nat (S (length pre))) ray a b
               = Some (answer, visited)) as Hlow.
    { intros a b.
      apply (IH1 self (pre ++ [branch_node axis s (Z.of_nat (S (length pre) + length l1))])
                 (l2 ++ post)); try assumption.
      - rewrite Hn, <- !app_assoc. reflexivity.
      - rewrite length_app. simpl. lia.
      - lia. }
    assert (forall a b, exists answer visited,
               _hit_node hook fuel self (Z.of_nat (S (length pre) + length l1)) ray a b
               = Some (answer, visited)) as Hupp.
    { intros a b.
      apply (IH2 self (pre ++ branch_node axis s (Z.of_nat (S (length pre) + length l1)) :: l1)
                 post); try assumption.
      - rewrite Hn, <- !app_assoc. reflexivity.
      - rewrite length_app. simpl. lia.
      - lia. }
    destruct (Qeq_bool (vget_index (direction ray) axis) 0).
    { destruct (Qlt_bool (get_index (origin ray) axis) s); auto. }
    set (pd := ((s - get_index (origin ray) axis) / vget_index (direction ray) axis)%Q).
    destruct (Qlt_bool (get_index (origin ray) axis) s
              || Qeq_bool (get_index (origin ray) axis) s
                 && Qlt_bool (vget_index (direction ray) axis) 0).
    + destruct (Qlt_bool max_range pd || Qle_bool pd 0); [auto | ].
      destruct (Qlt_bool pd min_range); [auto | ].
      destruct (Hlow min_range pd) as (a1 & v1 & ->).
      destruct a1; [eauto | ].
      destruct (Hupp pd max_range) as (a2 & v2 & ->). eauto.
    + destruct (Qlt_bool max_range pd || Qle_bool pd 0); [auto | ].
      destruct (Qlt_bool pd min_range); [auto | ].
      destruct (Hupp min_range pd) as (a1 & v1 & ->).
      destruct a1; [eauto | ].
      destruct (Hlow pd max_range) as (a2 & v2 & ->). eauto.
Qed.

(** The node behind [i] is a leaf. *)
Definition leaf_at (self : KDTreeCore) (i : Z) : Prop :=
  exists n : kdnode, node_at self i = Some n /\ type n = Some LEAF.

(** The calls of [_hit_leaf] a traversal made, read off its answer and the
    leaves it visited: the hook said no on every leaf but the last, its
    answer on the last is the answer of the traversal, and the range it was
    given never went beyond [max_range]. *)
Definition stopped_at_first_report
           (hook : KDTreeCore -> Z -> Ray -> Q -> option bool)
           (self : KDTreeCore) (ray : Ray) (max_range : Q)
           (answer : bool) (visited : list Z) : Prop :=
  exists (before : list Z) (last : Z),
    visited = before ++ [last] /\
    Forall (fun j => leaf_at self j /\
                     exists r : Q, (r <= max_range)%Q /\ hook self j ray r = Some false)
           before /\
    leaf_at self last /\
    exists r : Q, (r <= max_range)%Q /\ hook self last ray r = Some answer.

Lemma stopped_weaken (hook : KDTreeCore -> Z -> Ray -> Q -> option bool)
      (self : KDTreeCore) (ray : Ray) (m m' : Q) (answer : bool) (visited : list Z) :
  (m <= m')%Q ->
  stopped_at_first_report hook self ray m answer visited ->
  stopped_at_first_report hook self ray m' answer visited.
Proof.
  intros Hle (before & last & -> & Hb & Hl & r & Hr & Hh).
  exists before, last. split; [reflexivity | ]. split; [ | split; [exact Hl | ]].
  - eapply Forall_impl; [exact Hb | ].
    intros j (Hj & r' & Hr' & Hh'). split; [exact Hj | ].
    exists r'. split; [now apply Qle_trans with m | exact Hh'].
  - exists r. split; [now apply Qle_trans with m | exact Hh].
Qed.

Lemma stopped_app (hook : KDTreeCore -> Z -> Ray -> Q -> option bool)
      (self : KDTreeCore) (ray : Ray) (m : Q) (answer : bool) (v1 v2 : list Z) :
  stopped_at_first_report hook self ray m false v1 ->
  stopped_at_first_report hook self ray m answer v2 ->
  stopped_at_first_report hook self ray m answer (v1 ++ v2).
Proof.
  intros (b1 & l1 & -> & Hb1 & Hl1 & Hr1) (b2 & l2 & -> & Hb2 & Hl2 & Hr2).
  exists ((b1 ++ [l1]) ++ b2), l2. split; [now rewrite <- !app_assoc | ].
  split; [ | split; assumption].
  apply Forall_app. split; [ | exact Hb2].
  apply Forall_app. split; [exact Hb1 | ].
  constructor; [ | constructor]. split; assumption.
Qed.

Lemma hit_node_stops (hook : KDTreeCore -> Z -> Ray -> Q -> option bool)
      (self : KDTreeCore) (ray : Ray) (fuel : nat) :
  forall (i : Z) (min_range max_range : Q) (answer : bool) (visited : list Z),
    _hit_node hook fuel self i ray min_range max_range = Some (answer, visited) ->
    stopped_at_first_report hook self ray max_range answer visited.
Proof.
  induction fuel as [| fuel IH]; intros i min_range max_range answer visited; simpl.
  - discriminate.
  - destruct (node_at self i) as [n | ] eqn:Hn; [ | discriminate].
    destruct (type n) as [t | ] eqn:Ht; [ | discriminate].
    destruct (t =? LEAF) eqn:El.
    + apply Z.eqb_eq in El. subst t.
      destruct (hook self i ray max_range) as [a | ] eqn:Hh; [ | discriminate].
      intros [= <- <-]. exists [], i. split; [reflexivity | ].
      split; [constructor | ]. split; [exists n; auto | ].
      exists max_range. split; [apply Qle_refl | exact Hh].
    + unfold _hit_branch. rewrite Ht.
      destruct (split n) as [s | ]; [ | discriminate].
      destruct (count n) as [upper_id | ]; [ | discriminate].
      destruct (Qeq_bool (vget_index (direction ray) t) 0).
      { destruct (Qlt_bool (get_index (origin ray) t) s); apply IH. }
      set (pd := ((s - get_index (origin ray) t) / vget_index (direction ray) t)%Q).
      set (near := if Qlt_bool (get_index (origin ray) t) s
                      || Qeq_bool (get_index (origin ray) t) s
                         && Qlt_bool (vget_index (direction ray) t) 0
                   then i + 1 else upper_id).
      set (far := if Qlt_bool (get_index (origin ray) t) s
                     || Qeq_bool (get_index (origin ray) t) s
                        && Qlt_bool (vget_index (direction ray) t) 0
                  then upper_id else i + 1).
      destruct (Qlt_bool max_range pd || Qle_bool pd 0) eqn:E1; [apply IH | ].
      destruct (Qlt_bool pd min_range); [apply IH | ].
      apply orb_false_elim in E1. destruct E1 as [E1 _].
      apply Qlt_bool_false_iff in E1.
      destruct (_hit_node hook fuel self near ray min_range pd) as [[a1 v1] | ] eqn:H1;
        [ | discriminate].
      apply IH in H1. apply (stopped_weaken _ _ _ _ _ _ _ E1) in H1.
      destruct a1.
      * now intros [= <- <-].
      * destruct (_hit_node hook fuel self far ray pd max_range) as [[a2 v2] | ] eqn:H2;
          [ | discriminate].
        apply IH in H2. intros [= <- <-]. now apply stopped_app.
Qed.

Lemma init_tree_max_depth (auto_depth : Z -> Z) (fuel : nat) (its : list Item)
      (max_depth min_items : Z) (hit_cost empty_bonus : Q) (self : KDTreeCore) :
  __init__ auto_depth fuel its max_depth min_items hit_cost empty_bonus = inr (Some self) ->
  0 <= _max_depth self ->
  tree_at (fun ids => incl ids (map id its))
          (Z.to_nat (_max_depth self)) 0 (_nodes self).
Proof.
  intros H Hd. apply init_tree in H. unfold height_bound in H.
  destruct (0 <=? _max_depth self) eqn:E; [ | apply Z.leb_gt in E; lia].
  now rewrite Z.sub_0_r in H.
Qed.

(** X8.  In a tree built with a depth limit that is not negative, the search
    for a point needs no more than [max_depth] + 1 nested calls; it ends in
    one leaf and hands [_contains_items] the ids of that leaf, which are
    ids of items given to the constructor; its answer is the answer of
    [_contains_items]. *)
Theorem contains_search_ends_in_one_leaf
        (auto_depth : Z -> Z) (fuel : nat) (its : list Item)
        (max_depth min_items : Z) (hit_cost empty_bonus : Q) (self : KDTreeCore)
        (contains_items : list Z -> Point -> option (list Z))
        (fuel' : nat) (point : Point) :
  __init__ auto_depth fuel its max_depth min_items hit_cost empty_bonus = inr (Some self) ->
  0 <= _max_depth self ->
  (Z.to_nat (_max_depth self) < fuel')%nat ->
  exists (j : nat) (ids : list Z),
    _nodes self !! j = Some (leaf_node ids) /\
    (forall x : Z, In x ids -> In x (map id its)) /\
    _contains_node (KDTree_contains_leaf contains_items) fuel' self ROOT_NODE point
    = contains_items ids point.
Proof.
  intros H Hd Hf. pose proof (init_tree_max_depth _ _ _ _ _ _ _ _ H Hd) as T.
  destruct (contains_node_tree (KDTree_contains_leaf contains_items) _ _ _ _ T
              self [] [] fuel' point) as (j & ids & Hj & Hids & Hc).
  - simpl. now rewrite app_nil_r.
  - reflexivity.
  - exact Hf.
  - exists j, ids. split; [exact Hj | ]. split; [exact Hids | ].
    change (Z.of_nat 0) with ROOT_NODE in Hc. rewrite Hc.
    unfold KDTree_contains_leaf, node_at.
    destruct (Z.of_nat j <? 0) eqn:E; [apply Z.ltb_lt in E; lia | ].
    now rewrite Nat2Z.id, Hj, leaf_items_leaf_node.
Qed.

Lemma contains_search_ends_in_one_leaf_witness :
  exists (j : nat) (ids : list Z),
    _nodes three_boxes_tree !! j = Some (leaf_node ids) /\
    (forall x : Z, In x ids -> In x (map id three_boxes)) /\
    _contains_node (KDTree_contains_leaf (scene_contains_items three_boxes)) 11
                   three_boxes_tree ROOT_NODE (mk_point (5 # 2) (1 # 2) (1 # 2))
    = scene_contains_items three_boxes ids (mk_point (5 # 2) (1 # 2) (1 # 2)).
Proof.
  apply (contains_search_ends_in_one_leaf auto_depth_3 11 three_boxes 0 1 20 (1 # 5)).
  - exact three_boxes_built.
  - vm_compute. discriminate.
  - vm_compute. lia.
Defined.

(** X9.  On a built tree, with a hook that does not raise on the leaves,
    [contains] answers with the empty list for a point outside the bounds
    and with [None] for a point inside them. *)
Theorem contains_answers_empty_list_or_None
        (auto_depth : Z -> Z) (fuel : nat) (its : list Item)
        (max_depth min_items : Z) (hit_cost empty_bonus : Q) (self : KDTreeCore)
        (hook : KDTreeCore -> Z -> Point -> option (list Z))
        (fuel' : nat) (point : Point) :
  __init__ auto_depth fuel its max_depth min_items hit_cost empty_bonus = inr (Some self) ->
  0 <= _max_depth self ->
  (Z.to_nat (_max_depth self) < fuel')%nat ->
  (forall (j : nat) (ids : list Z),
      _nodes self !! j = Some (leaf_node ids) ->
      exists l : list Z, hook self (Z.of_nat j) point = Some l) ->
  contains hook fuel' self point
  = Some (if box_contains (bounds self) point then PyNone else PyList []).
Proof.
  intros H Hd Hf Hhook. pose proof (init_tree_max_depth _ _ _ _ _ _ _ _ H Hd) as T.
  unfold contains, _contains.
  destruct (box_contains (bounds self) point); simpl; [ | reflexivity].
  destruct (contains_node_tree hook _ _ _ _ T self [] [] fuel' point)
    as (j & ids & Hj & _ & Hc).
  - simpl. now rewrite app_nil_r.
  - reflexivity.
  - exact Hf.
  - change (Z.of_nat 0) with ROOT_NODE in Hc. rewrite Hc.
    destruct (Hhook j ids Hj) as [l ->]. reflexivity.
Qed.

Lemma KDTree_contains_leaf_on_leaf (contains_items : list Z -> Point -> option (list Z))
      (self : KDTreeCore) (j : nat) (ids : list Z) (point : Point) :
  _nodes self !! j = Some (leaf_node ids) ->
  KDTree_contains_leaf contains_items self (Z.of_nat j) point = contains_items ids point.
Proof.
  intros Hj. unfold KDTree_contains_leaf, node_at.
  destruct (Z.of_nat j <? 0) eqn:E; [apply Z.ltb_lt in E; lia | ].
  now rewrite Nat2Z.id, Hj, leaf_items_leaf_node.
Qed.

Lemma KDTree_hit_leaf_on_leaf (hit_items : list Z -> Ray -> Q -> option bool)
      (self : KDTreeCore) (j : nat) (ids : list Z) (ray : Ray) (r : Q) :
  _nodes self !! j = Some (leaf_node ids) ->
  KDTree_hit_leaf hit_items self (Z.of_nat j) ray r = hit_items ids ray r.
Proof.
  intros Hj. unfold KDTree_hit_leaf, node_at.
  destruct (Z.of_nat j <? 0) eqn:E; [apply Z.ltb_lt in E; lia | ].
  now rewrite Nat2Z.id, Hj, leaf_items_leaf_node.
Qed.

Lemma contains_answers_empty_list_or_None_witness :
  contains (KDTree_contains_leaf (scene_contains_items three_boxes)) 11 three_boxes_tree
           (mk_point (3 # 2) (1 # 2) (1 # 2))
  = Some (if box_contains (bounds three_boxes_tree) (mk_point (3 # 2) (1 # 2) (1 # 2))
          then PyNone else PyList []).
Proof.
  apply (contains_answers_empty_list_or_None auto_depth_3 11 three_boxes 0 1 20 (1 # 5)).
  - exact three_boxes_built.
  - vm_compute. discriminate.
  - vm_compute. lia.
  - intros j ids Hj. rewrite (KDTree_contains_leaf_on_leaf _ _ _ _ _ Hj).
    unfold scene_contains_items. eauto.
Defined.

(** X10.  In a tree built with a depth limit that is not negative, [hit]
    needs no more than [max_depth] + 1 nested calls and returns whenever
    the hook does not raise on the leaves: it reads no node outside the
    array and no field that was not written. *)
Theorem hit_returns_on_built_tree
        (auto_depth : Z -> Z) (fuel : nat) (its : list Item)
        (max_depth min_items : Z) (hit_cost empty_bonus : Q) (self : KDTreeCore)
        (hook : KDTreeCore -> Z -> Ray -> Q -> option bool)
        (fuel' : nat) (ray : Ray) :
  __init__ auto_depth fuel its max_depth min_items hit_cost empty_bonus = inr (Some self) ->
  0 <= _max_depth self ->
  (Z.to_nat (_max_depth self) < fuel')%nat ->
  (forall (j : nat) (ids : list Z) (r : Q),
      _nodes self !! j = Some (leaf_node ids) ->
      exists answer : bool, hook self (Z.of_nat j) ray r = Some answer) ->
  exists (answer : bool) (visited : list Z),
    hit hook fuel' self ray = Some (answer, visited).
Proof.
  intros H Hd Hf Hhook. pose proof (init_tree_max_depth _ _ _ _ _ _ _ _ H Hd) as T.
  unfold hit, _hit.
  destruct (full_intersection (bounds self) ray) as [[h min_range] max_range].
  destruct h; simpl; [ | eauto].
  apply (hit_node_tree hook _ _ _ _ T self [] [] fuel' ray); try assumption.
  - simpl. now rewrite app_nil_r.
  - reflexivity.
Qed.

Lemma hit_returns_on_built_tree_witness :
  exists (answer : bool) (visited : list Z),
    hit (KDTree_hit_leaf (scene_hit_items flat_items)) 11 flat_items_tree flat_ray
    = Some (answer, visited).
Proof.
  apply (hit_returns_on_built_tree auto_depth_3 11 flat_items 0 1 20 (1 # 5)).
  - exact flat_items_built.
  - vm_compute. discriminate.
  - vm_compute. lia.
  - intros j ids r Hj. rewrite (KDTree_hit_leaf_on_leaf _ _ _ _ _ _ Hj).
    unfold scene_hit_items. eauto.
Defined.

(** X11.  Whatever the node array, when [hit] returns: if the ray misses
    the bounds, the answer is no and [_hit_leaf] was not called; otherwise
    [_hit_leaf] was called on leaves only, it said no on every leaf but the
    last one visited, its answer on the last is the answer of [hit], and it
    was never given a range beyond the distance at which the ray leaves the
    bounds. *)
Theorem hit_stops_at_first_reporting_leaf
        (hook : KDTreeCore -> Z -> Ray -> Q -> option bool)
        (fuel : nat) (self : KDTreeCore) (ray : Ray)
        (answer : bool) (visited : list Z) :
  hit hook fuel self ray = Some (answer, visited) ->
  match full_intersection (bounds self) ray with
  | (false, _, _) => answer = false /\ visited = []
  | (true, _, max_range) => stopped_at_first_report hook self ray max_range answer visited
  end.
Proof.
  unfold hit, _hit.
  destruct (full_intersection (bounds self) ray) as [[h min_range] max_range].
  destruct h; simpl.
  - apply hit_node_stops.
  - intros [= <- <-]. auto.
Qed.

Lemma hit_stops_at_first_reporting_leaf_witness :
  stopped_at_first_report (KDTree_hit_leaf (scene_hit_items flat_items))
                          flat_items_tree flat_ray (9 # 4) true [1; 2].
Proof.
  apply (hit_stops_at_first_reporting_leaf
           (KDTree_hit_leaf (scene_hit_items flat_items)) 3 flat_items_tree flat_ray
           true [1; 2]).
  vm_compute. reflexivity.
Defined.

(* ===================================================================== *)
(** * Further properties of pickling *)
(* ===================================================================== *)







(* ===================================================================== *)
(** * Further properties of the sampled spectral function *)
(* ===================================================================== *)

From Stdlib Require Import Lqa.










Lemma map_samples_shape (f : Q -> Q) (o o' : SampledSF.t) :
  SampledSF.map_samples f o = Some o' ->
  exists l : list Q,
    SampledSF.samples o = Some l /\ o' = SampledSF.with_samples o (map f l).
Proof.
  unfold SampledSF.map_samples. destruct (SampledSF.samples o) as [l | ]; [ | discriminate].
  intros [= <-]. eauto.
Qed.

Lemma zip_samples_shape (f : Q -> Q -> Q) (a : list Q) (o o' : SampledSF.t) :
  SampledSF.zip_samples f a o = Some o' ->
  exists l : list Q,
    SampledSF.samples o = Some l /\ (length l <= length a)%nat /\
    o' = SampledSF.with_samples o (zip_with f l a).
Proof.
  unfold SampledSF.zip_samples. destruct (SampledSF.samples o) as [l | ]; [ | discriminate].
  destruct (length l <=? length a)%nat eqn:E; [ | discriminate].
  apply Nat.leb_le in E. intros [= <-]. eauto.
Qed.

(** X16.  The in-place arithmetic of [SampledSF] changes the bin values
    only: the range, the number of samples, the bin width, the flag and the
    cached wavelengths stay, and the sample array keeps its length, so an
    object that passed the checks of [sample_multiple] before passes them
    after. *)
Theorem arithmetic_keeps_shape
        (f : SampledSF.t -> option SampledSF.t) (o o' : SampledSF.t) :
  arithmetic f -> f o = Some o' ->
  SampledSF.min_wavelength o' = SampledSF.min_wavelength o /\
  SampledSF.max_wavelength o' = SampledSF.max_wavelength o /\
  SampledSF.num_samples o' = SampledSF.num_samples o /\
  SampledSF.delta_wavelength o' = SampledSF.delta_wavelength o /\
  SampledSF.fast_sample o' = SampledSF.fast_sample o /\
  SampledSF._wavelengths o' = SampledSF._wavelengths o /\
  exists l l' : list Q,
    SampledSF.samples o = Some l /\ SampledSF.samples o' = Some l' /\
    length l' = length l.
Proof.
  intros Hf H.
  assert ((exists g l, SampledSF.samples o = Some l /\
                       o' = SampledSF.with_samples o (map g l)) \/
          (exists (g : Q -> Q -> Q) (a l : list Q),
              SampledSF.samples o = Some l /\ (length l <= length a)%nat /\
              o' = SampledSF.with_samples o (zip_with g l a))) as Hcases.
  { destruct Hf as [v | v | v | v | a | a | a | a].
    1-4: left; apply map_samples_shape in H; destruct H as (l & H1 & H2); eauto.
    all: right; apply zip_samples_shape in H; destruct H as (l & H1 & H2 & H3); eauto 10. }
  destruct Hcases as [(g & l & Hl & ->) | (g & a & l & Hl & Hle & ->)]; simpl.
  - repeat split. exists l, (map g l). rewrite length_map. auto.
  - repeat split. exists l, (zip_with g l a).
    rewrite length_zip_with. repeat split; [exact Hl | lia].
Qed.

Lemma arithmetic_keeps_shape_witness :
  let o := SampledSF._construct 400 700 2 false in
  let o' := SampledSF.with_samples o (zip_with Qplus [0; 0]%Q [1; 2; 3]%Q) in
  SampledSF.min_wavelength o' = SampledSF.min_wavelength o /\
  SampledSF.max_wavelength o' = SampledSF.max_wavelength o /\
  SampledSF.num_samples o' = SampledSF.num_samples o /\
  SampledSF.delta_wavelength o' = SampledSF.delta_wavelength o /\
  SampledSF.fast_sample o' = SampledSF.fast_sample o /\
  SampledSF._wavelengths o' = SampledSF._wavelengths o /\
  exists l l' : list Q,
    SampledSF.samples o = Some l /\ SampledSF.samples o' = Some l' /\
    length l' = length l.
Proof.
  intros o o'.
  apply (arithmetic_keeps_shape (SampledSF.add_array [1; 2; 3]%Q) o o').
  - constructor.
  - reflexivity.
Defined.



(* ===================================================================== *)
(** * Further properties of sampling *)
(* ===================================================================== *)

(** X18.  [InterpolatedSF(wavelengths, samples)] makes an object exactly
    when the wavelength array has one dimension and the sample array has at
    least one dimension, the first of the same length; the further
    dimensions of the sample array are not looked at. *)
Theorem interpolatedsf_init_accepts_iff (wavelengths samples : ndarray) (fast : bool) :
  (exists o : InterpolatedSF.t, InterpolatedSF.__init__ wavelengths samples fast = inr o)
  <-> (exists (n : Z) (rest : list Z), shape wavelengths = [n] /\ shape samples = n :: rest).
Proof.
  unfold InterpolatedSF.__init__, ndim, shape0.
  destruct (Z.of_nat (length (shape wavelengths)) =? 1) eqn:Ed; cbn [negb].
  - apply Z.eqb_eq in Ed.
    destruct (shape wavelengths) as [| n [| m ws]] eqn:Ew; simpl in Ed; try lia.
    destruct (shape samples) as [| k rest] eqn:Es.
    + split; [intros [o H]; discriminate | intros (n' & rest & _ & H); discriminate].
    + destruct (k =? n) eqn:E; cbn [negb].
      * apply Z.eqb_eq in E. subst k. split; eauto.
      * apply Z.eqb_neq in E. split; [intros [o H]; discriminate | ].
        intros (n' & rest' & H1 & H2). congruence.
  - apply Z.eqb_neq in Ed. split; [intros [o H]; discriminate | ].
    intros (n & rest & H & _). rewrite H in Ed. simpl in Ed. lia.
Qed.

Section SamplingFacts.

Variable interpolate : list Q -> list Q -> Q -> Q.
Variable integrate : list Q -> list Q -> Q -> Q -> Q.






(** X20.  [SampledSF.sample_multiple] leaves the objects that were there as
    they are, but for the wavelengths it may populate in the object
    sampled; the bins of the source are not touched. *)
Theorem sampledsf_resampling_keeps_sources
        (self : ref) (h : SampledSF.store) (min_wl max_wl : Q) (n : Z)
        (r : ref) (h' : SampledSF.store) (k : ref) (o : SampledSF.t) :
  SampledSF.sample_multiple interpolate integrate self h min_wl max_wl n
  = Some (inr (r, h')) ->
  h !! k = Some o ->
  h' !! k = Some o \/
  (k = self /\ h' !! k = Some (SampledSF._populate_wavelengths o) /\
   SampledSF.samples (SampledSF._populate_wavelengths o) = SampledSF.samples o).
Proof.
  intros H Hk. unfold SampledSF.sample_multiple in H.
  destruct (h !! self) as [os | ] eqn:Hself; [ | discriminate].
  destruct (SampledSF.samples os) as [smp | ] eqn:Hsmp; [ | discriminate].
  destruct (negb _); [discriminate | ].
  destruct (SampledSF.is_shaped os min_wl max_wl n).
  - injection H as <- <-. now left.
  - unfold SampledSF.alloc in H.
    set (new := SampledSF.new_sampledsf min_wl max_wl n) in *.
    set (o' := SampledSF._populate_wavelengths os) in *.
    assert (self < length h)%nat as Hlt by (eapply lookup_lt_Some; exact Hself).
    assert (k < length h)%nat as Hklt by (eapply lookup_lt_Some; exact Hk).
    assert (<[self := o']> (h ++ [new]) !! length h = Some new) as H2.
    { rewrite list_lookup_insert_ne by lia. now apply list_lookup_middle. }
    rewrite H2 in H. injection H as <- <-.
    rewrite list_lookup_insert_ne by lia.
    destruct (decide (self = k)) as [-> | Hne].
    + right. rewrite Hk in Hself. injection Hself as <-.
      split; [reflexivity | ]. split.
      * apply list_lookup_insert_eq. rewrite length_app. simpl. lia.
      * unfold SampledSF._populate_wavelengths.
        now destruct (SampledSF._wavelengths o).
    + left. rewrite list_lookup_insert_ne by exact Hne.
      now apply lookup_app_l_Some.
Qed.


End SamplingFacts.

(** The store after the object of [fresh_cache] was sampled again, into one
    bin. *)
Definition resampled_store : SampledSF.store := Eval vm_compute in
    match SampledSF.sample_multiple no_interpolate no_integrate 0%nat (snd fresh_cache)
                                    400 700 1 with
    | Some (inr (_, h')) => h'
    | _ => []
    end.

Lemma resampled_store_call :
  SampledSF.sample_multiple no_interpolate no_integrate 0%nat (snd fresh_cache) 400 700 1
  = Some (inr (1%nat, resampled_store)).
Proof. vm_compute. reflexivity. Qed.


Lemma sampledsf_resampling_keeps_sources_witness :
  resampled_store !! 0%nat
  = Some (SampledSF.mk 400 700 2 ((700 - 400) / inject_Z 2) false (Some [3; 3]%Q) None) \/
  (0%nat = 0%nat /\
   resampled_store !! 0%nat
   = Some (SampledSF._populate_wavelengths
             (SampledSF.mk 400 700 2 ((700 - 400) / inject_Z 2) false (Some [3; 3]%Q) None)) /\
   SampledSF.samples
     (SampledSF._populate_wavelengths
        (SampledSF.mk 400 700 2 ((700 - 400) / inject_Z 2) false (Some [3; 3]%Q) None))
   = SampledSF.samples
       (SampledSF.mk 400 700 2 ((700 - 400) / inject_Z 2) false (Some [3; 3]%Q) None)).
Proof.
  apply (sampledsf_resampling_keeps_sources no_interpolate no_integrate
           0%nat (snd fresh_cache) 400 700 1 1%nat resampled_store 0%nat).
  - exact resampled_store_call.
  - reflexivity.
Defined.


(* ===================================================================== *)
(** * Further properties of the constant spectral function *)
(* ===================================================================== *)



(** X23.  The cache holds one object: after a request for another sample
    count the object handed out before is no longer returned; a request for
    the first count then gets an object that was not in the store. *)
Theorem constant_cache_holds_one_shape
        (c : ConstantSF.t) (h : SampledSF.store) (min_wl max_wl : Q) (n n' : Z)
        (r1 r2 r3 : ref) (c1 c2 c3 : ConstantSF.t) (h1 h2 h3 : SampledSF.store) :
  n <> n' ->
  ConstantSF.sample_multiple c h min_wl max_wl n = Some (r1, c1, h1) ->
  ConstantSF.sample_multiple c1 h1 min_wl max_wl n' = Some (r2, c2, h2) ->
  ConstantSF.sample_multiple c2 h2 min_wl max_wl n = Some (r3, c3, h3) ->
  (r1 < length h1)%nat /\ r2 = length h1 /\ r3 = S (length h1) /\
  ConstantSF.cached_samples c3 = Some r3.
Proof.
  intros Hn H1 H2 H3.
  assert ((r1 < length h1)%nat /\
          exists o, h1 !! r1 = Some o /\ ConstantSF.cached_samples c1 = Some r1 /\
                    SampledSF.num_samples o = n) as (Hr1 & o1 & Ho1 & Hc1 & Hn1).
  { unfold ConstantSF.sample_multiple, ConstantSF.cache_hit in H1.
    destruct (ConstantSF.cached_samples c) as [rc | ] eqn:Hc.
    - destruct (h !! rc) as [o | ] eqn:Ho; [ | discriminate].
      destruct (SampledSF.is_shaped o min_wl max_wl n) eqn:Hs.
      + injection H1 as <- <- <-. split; [eapply lookup_lt_Some; exact Ho | ].
        exists o. repeat split; try assumption.
        unfold SampledSF.is_shaped in Hs. apply andb_true_iff in Hs.
        destruct Hs as [_ Hs]. now apply Z.eqb_eq in Hs.
      + unfold SampledSF.alloc in H1. injection H1 as <- <- <-.
        split; [rewrite length_app; simpl; lia | ].
        eexists. split; [now apply list_lookup_middle | ]. split; reflexivity.
    - unfold SampledSF.alloc in H1. injection H1 as <- <- <-.
      split; [rewrite length_app; simpl; lia | ].
      eexists. split; [now apply list_lookup_middle | ]. split; reflexivity. }
  assert (SampledSF.is_shaped o1 min_wl max_wl n' = false) as Hs1.
  { unfold SampledSF.is_shaped. rewrite Hn1.
    destruct (n =? n') eqn:E; [apply Z.eqb_eq in E; contradiction | ].
    now rewrite andb_false_r. }
  unfold ConstantSF.sample_multiple, ConstantSF.cache_hit in H2.
  rewrite Hc1, Ho1, Hs1 in H2. unfold SampledSF.alloc in H2.
  injection H2 as <- <- <-.
  unfold ConstantSF.sample_multiple, ConstantSF.cache_hit in H3. simpl in H3.
  rewrite list_lookup_middle in H3 by reflexivity.
  unfold SampledSF.is_shaped in H3. simpl in H3.
  destruct (n' =? n) eqn:E; [apply Z.eqb_eq in E; congruence | ].
  rewrite andb_false_r in H3. unfold SampledSF.alloc in H3.
  injection H3 as <- <- <-.
  repeat split; try assumption.
  rewrite length_app. simpl. lia.
Qed.

Lemma constant_cache_holds_one_shape_witness :
  (0 < length (snd fresh_cache))%nat /\ 1%nat = length (snd fresh_cache) /\
  2%nat = S (length (snd fresh_cache)) /\
  ConstantSF.cached_samples (ConstantSF.mk 3 (Some 2%nat)) = Some 2%nat.
Proof.
  apply (constant_cache_holds_one_shape (ConstantSF.__init__ 3) [] 400 700 2 5
           0%nat 1%nat 2%nat (fst fresh_cache) (ConstantSF.mk 3 (Some 1%nat))
           (ConstantSF.mk 3 (Some 2%nat)) (snd fresh_cache)
           (snd fresh_cache ++ [SampledSF.with_samples (SampledSF.new_sampledsf 400 700 5)
                                  (replicate 5 3%Q)])
           ((snd fresh_cache ++ [SampledSF.with_samples (SampledSF.new_sampledsf 400 700 5)
                                   (replicate 5 3%Q)])
              ++ [SampledSF.with_samples (SampledSF.new_sampledsf 400 700 2)
                    (replicate 2 3%Q)])).
  - lia.
  - reflexivity.
  - reflexivity.
  - reflexivity.
Defined.

(* ===================================================================== *)
(** * Further properties of the glass material *)
(* ===================================================================== *)

(** X24.  The reflectivity [_fresnel] computes is never negative, so the
    transmission never exceeds one. *)
Theorem fresnel_reflectivity_not_negative (ci ct n1 n2 : Q) :
  (0 <= fst (Glass._fresnel ci ct n1 n2))%Q /\ (snd (Glass._fresnel ci ct n1 n2) <= 1)%Q.
Proof.
  unfold Glass._fresnel. simpl.
  set (a := ((n1 * ci - n2 * ct) / (n1 * ci + n2 * ct))%Q).
  set (b := ((n1 * ct - n2 * ci) / (n1 * ct + n2 * ci))%Q).
  split; nra.
Qed.

(** X25.  Reciprocity: exchanging the two indices together with the two
    cosines leaves the reflectivity as it is. *)
Theorem fresnel_reciprocity (ci ct n1 n2 : Q) :
  (fst (Glass._fresnel ct ci n2 n1) == fst (Glass._fresnel ci ct n1 n2))%Q.
Proof.
  unfold Glass._fresnel. simpl. unfold Qdiv.
  setoid_replace (n2 * ct + n1 * ci)%Q with (n1 * ci + n2 * ct)%Q using relation Qeq by ring.
  setoid_replace (n2 * ci + n1 * ct)%Q with (n1 * ct + n2 * ci)%Q using relation Qeq by ring.
  ring.
Qed.

(** X26.  At normal incidence, where both cosines are one, the
    reflectivity is ((n1 - n2) / (n1 + n2))^2. *)
Theorem fresnel_normal_incidence (n1 n2 : Q) :
  (fst (Glass._fresnel 1 1 n1 n2) == ((n1 - n2) / (n1 + n2)) * ((n1 - n2) / (n1 + n2)))%Q.
Proof.
  unfold Glass._fresnel. simpl. unfold Qdiv.
  setoid_replace (n1 * 1 + n2 * 1)%Q with (n1 + n2)%Q using relation Qeq by ring.
  ring.
Qed.

Section GlassFurtherFacts.

Variables World OpticalRay Primitive AffineMatrix Spectrum : Type.
Variable sqrt : Q -> Q.
Variable vector_transform : Vector -> AffineMatrix -> Vector.
Variable point_transform : Point -> AffineMatrix -> Point.
Variable vector_normalise : Vector -> Vector.
Variable normal_normalise : Glass.Normal -> Glass.Normal.
Variable normal_dot : Glass.Normal -> Vector -> Q.
Variable ray_direction : OpticalRay -> Vector.
Variable refraction_wavelength : OpticalRay -> Q.
Variable spawn_daughter : OpticalRay -> Point -> Vector -> OpticalRay.
Variable trace : OpticalRay -> World -> Spectrum.
Variable new_spectrum : OpticalRay -> Spectrum.
Variable mul_scalar : Spectrum -> Q -> Spectrum.
Variable add_array : Spectrum -> Spectrum -> Spectrum.

(** X27.  When [c2s > 0], [evaluate_surface] spawns two daughter rays,
    whether or not it goes on to trace them: the reflected ray first, from
    [inside_point] when exiting and from [outside_point] otherwise, then the
    transmitted ray from the other of the two points, with direction
    [gamma I + (gamma c1 + sqrt c2s) N] when exiting and
    [gamma I + (gamma c1 - sqrt c2s) N] otherwise.  Each ray is traced when
    its coefficient is above the cutoff, and the spectrum returned is the
    sum of the traces scaled by their coefficients, starting from
    [ray.new_spectrum()] when the reflected ray is not traced. *)
Theorem partial_reflection_and_refraction
        (self : Glass.t) (world : World) (ray : OpticalRay) (primitive : Primitive)
        (hit_point : Point) (exiting : bool) (inside_point outside_point : Point)
        (normal : Glass.Normal) (to_local to_world : AffineMatrix) :
  let I := vector_normalise (vector_transform (ray_direction ray) to_local) in
  let N := normal_normalise normal in
  let c1 := (- normal_dot N I)%Q in
  let n1 := if exiting then Glass.index self (refraction_wavelength ray) else 1%Q in
  let n2 := if exiting then 1%Q else Glass.index self (refraction_wavelength ray) in
  let gamma := (n1 / n2)%Q in
  let c2s := (1 - (gamma * gamma) * (1 - c1 * c1))%Q in
  (0 < c2s)%Q ->
  let R := vector_transform
             (mk_vector (vx I + 2 * c1 * Glass.nx N)
                        (vy I + 2 * c1 * Glass.ny N)
                        (vz I + 2 * c1 * Glass.nz N)) to_world in
  let temp := if exiting then (gamma * c1 + sqrt c2s)%Q else (gamma * c1 - sqrt c2s)%Q in
  let T_local := mk_vector (gamma * vx I + temp * Glass.nx N)
                           (gamma * vy I + temp * Glass.ny N)
                           (gamma * vz I + temp * Glass.nz N) in
  let T := vector_transform T_local to_world in
  let r := fst (Glass._fresnel c1 (- normal_dot N T_local)%Q n1 n2) in
  let t := snd (Glass._fresnel c1 (- normal_dot N T_local)%Q n1 n2) in
  let inside := point_transform inside_point to_world in
  let outside := point_transform outside_point to_world in
  let reflected_ray := spawn_daughter ray (if exiting then inside else outside) R in
  let transmitted_ray := spawn_daughter ray (if exiting then outside else inside) T in
  Glass.evaluate_surface sqrt vector_transform point_transform vector_normalise
    normal_normalise normal_dot ray_direction refraction_wavelength spawn_daughter
    trace new_spectrum mul_scalar add_array
    self world ray primitive hit_point exiting inside_point outside_point
    normal to_local to_world
  = (let reflected_part :=
       if Qlt_bool (Glass.cutoff self) r
       then mul_scalar (trace reflected_ray world) r else new_spectrum ray in
     if Qlt_bool (Glass.cutoff self) t
     then add_array reflected_part (mul_scalar (trace transmitted_ray world) t)
     else reflected_part,
     [Glass.Spawn (if exiting then inside else outside) R;
      Glass.Spawn (if exiting then outside else inside) T]
       ++ (if Qlt_bool (Glass.cutoff self) r then [Glass.Trace reflected_ray] else [])
       ++ (if Qlt_bool (Glass.cutoff self) t then [Glass.Trace transmitted_ray] else [])).
Proof.
  intros I N c1 n1 n2 gamma c2s H R temp T_local T r t inside outside
         reflected_ray transmitted_ray.
  unfold Glass.evaluate_surface.
  fold I N. fold c1. fold n1 n2. fold gamma. fold c2s.
  assert (Qle_bool c2s 0 = false) as ->.
  { apply not_true_iff_false. intros E. apply Qle_bool_iff in E.
    apply (Qlt_irrefl 0). now apply Qlt_le_trans with c2s. }
  fold temp. unfold Glass.new_vector. fold T_local.
  unfold r, t, reflected_ray, transmitted_ray, inside, outside, T, R.
  destruct (Glass._fresnel c1 (- normal_dot N T_local) n1 n2) as [rf tr]. simpl.
  destruct (Qlt_bool (Glass.cutoff self) rf), (Qlt_bool (Glass.cutoff self) tr);
    destruct exiting; reflexivity.
Qed.


End GlassFurtherFacts.

(** A ray entering glass of index 3/2 head-on, along (0, 0, -1) through a
    surface of normal (0, 0, 1), with the collaborators of the reflection
    example: both daughter rays are spawned and traced. *)
Definition head_on_direction : Vector := mk_vector 0 0 (- (1)).

Lemma partial_reflection_and_refraction_witness :
  exists R T : Vector,
    snd (Glass.evaluate_surface (World := unit) (Primitive := unit) (AffineMatrix := unit)
           (fun q => q) (fun v _ => v) (fun p _ => p) (fun v => v) (fun n => n) tir_dot
           (fun r : Vector => r) (fun _ => 500%Q) (fun _ _ d => d)
           (fun r _ => [r]) (fun _ => []) (fun s _ => s) (fun s t => s ++ t)
           tir_glass tt head_on_direction tt (mk_point 0 0 0) false
           tir_inside_point tir_outside_point (Glass.mk_normal 0 0 1) tt tt)
    = [Glass.Spawn tir_outside_point R; Glass.Spawn tir_inside_point T;
       Glass.Trace R; Glass.Trace T].
Proof.
  assert (E := partial_reflection_and_refraction unit Vector unit unit (list Vector)
           (fun q => q) (fun v _ => v) (fun p _ => p) (fun v => v) (fun n => n) tir_dot
           (fun r : Vector => r) (fun _ => 500%Q) (fun _ _ d => d)
           (fun r _ => [r]) (fun _ => []) (fun s _ => s) (fun s t => s ++ t)
           tir_glass tt head_on_direction tt (mk_point 0 0 0) false
           tir_inside_point tir_outside_point (Glass.mk_normal 0 0 1) tt tt).
  cbv zeta in E. rewrite E; [ | vm_compute; reflexivity ].
  eexists. eexists. vm_compute. reflexivity.
Defined.

